(** * SafeAccess: the mask-detection access pipeline

    A shallow embedding of [mask_system.py] (class [MaskAccessSystem]) and of
    the credential loop of [projeto_camera.py], followed by the properties of
    the detection-and-decision pipeline.

    Conventions of the embedding:
    - Python [float] is IEEE binary64, here Rocq's primitive [float];
      [time.time()] is an argument [now : float] of the function that reads it.
    - JSON values, as [resp.json()] returns them, are the Python objects
      [pyval]; a [dict] is a [gmap string pyval].
    - A Python exception is the [Raise] case of [result]; [try/except] is
      written out where the source has one.
    - Strings are byte strings. [str.lower], [str.upper] and [str.strip] are
      modelled on ASCII text, where they act byte by byte; what is stated
      of a label or a tag in lower or upper case is stated of ASCII text. *)

From Stdlib Require Import ZArith Floats Lia Ascii String.
From stdpp Require Import gmap strings list fin_maps.

Set Warnings "-register-all,-inexact-float".

Local Open Scope Z_scope.

(** ** Python values, exceptions and the operators the source applies *)

Module Py.

Inductive exn : Type :=
  | KeyError
  | TypeError
  | AttributeError
  | OverflowError
  | ZeroDivisionError
  | JSONDecodeError
  | HTTPError
  | ConnectionError
  | Timeout
  | CvError.

Inductive result (A : Type) : Type :=
  | Ok (a : A)
  | Raise (e : exn).
Arguments Ok {A} a.
Arguments Raise {A} e.

Definition bind {A B : Type} (m : result A) (k : A -> result B) : result B :=
  match m with
  | Ok a => k a
  | Raise e => Raise e
  end.

Inductive pyval : Type :=
  | PNone
  | PBool (b : bool)
  | PInt (z : Z)
  | PFloat (f : float)
  | PStr (s : string)
  | PList (l : list pyval)
  | PDict (d : gmap string pyval).

(** [float(z)] for a Python [int]: rounding to nearest even, and
    [OverflowError] when the rounded value is not finite. *)
Definition float_of_Z (z : Z) : float :=
  SF2Prim (binary_normalize prec emax z 0 false).

Definition float_of_int (z : Z) : result float :=
  let f := float_of_Z z in
  if is_infinity f then Raise OverflowError else Ok f.

(** [a / b] on two [int]s (true division). For operands below [2^53] in
    absolute value, as image dimensions are, the correctly rounded
    quotient is the quotient of the two conversions. *)
Definition int_truediv (a b : Z) : result float :=
  if (b =? 0)%Z then Raise ZeroDivisionError
  else bind (float_of_int a) (fun fa =>
       bind (float_of_int b) (fun fb => Ok (fa / fb)%float)).

(** The conversion Python applies to the other operand of a [float]
    operator: an [int] (and a [bool], which is one) is converted, anything
    else is a [TypeError]. *)
Definition to_float (v : pyval) : result float :=
  match v with
  | PFloat g => Ok g
  | PInt z => float_of_int z
  | PBool b => Ok (if b then 1 else 0)%float
  | PNone | PStr _ | PList _ | PDict _ => Raise TypeError
  end.

(** [v * f] where [f] is a [float]. *)
Definition mul_float (v : pyval) (f : float) : result float :=
  bind (to_float v) (fun g => Ok (g * f)%float).

(** [z >= f] for an [int] and a [float]: Python compares the exact values. *)
Definition int_ge_float (z : Z) (f : float) : bool :=
  match Prim2SF f with
  | S754_nan => false
  | S754_infinity s => s
  | S754_zero _ => (0 <=? z)%Z
  | S754_finite s m e =>
      let v := cond_Zopp s (Z.pos m) in
      if (0 <=? e)%Z then (v * 2 ^ e <=? z)%Z
      else (v <=? z * 2 ^ (- e))%Z
  end.

(** [v >= f] where [f] is a [float]. *)
Definition ge_float (v : pyval) (f : float) : result bool :=
  match v with
  | PFloat g => Ok (f <=? g)%float
  | PInt z => Ok (int_ge_float z f)
  | PBool b => Ok (int_ge_float (if b then 1 else 0) f)
  | PNone | PStr _ | PList _ | PDict _ => Raise TypeError
  end.

(** [p[k]] for a string key [k]. *)
Definition getitem (p : pyval) (k : string) : result pyval :=
  match p with
  | PDict d =>
      match d !! k with
      | Some v => Ok v
      | None => Raise KeyError
      end
  | _ => Raise TypeError
  end.

(** [p.get(k, default)]: only a [dict] has the method. *)
Definition get (p : pyval) (k : string) (dflt : pyval) : result pyval :=
  match p with
  | PDict d => Ok (default dflt (d !! k))
  | _ => Raise AttributeError
  end.

(** [str.lower] on ASCII text: the letters [A] to [Z] move to [a] to [z],
    every other character below 128 stays. On other text Python follows
    the Unicode tables, which are not modelled: see [ascii_text]. *)
Definition lower_ascii (c : ascii) : ascii :=
  let n := nat_of_ascii c in
  if ((65 <=? n)%nat && (n <=? 90)%nat)%bool then ascii_of_nat (n + 32) else c.

Fixpoint lower_string (s : string) : string :=
  match s with
  | EmptyString => EmptyString
  | String c r => String (lower_ascii c) (lower_string r)
  end.

(** [v.lower()]: only a [str] has the method. *)
Definition lower (v : pyval) : result string :=
  match v with
  | PStr s => Ok (lower_string s)
  | _ => Raise AttributeError
  end.

Fixpoint chars (s : string) : list pyval :=
  match s with
  | EmptyString => []
  | String c r => PStr (String c EmptyString) :: chars r
  end.

(** The elements [for p in v] visits. A [dict] yields its keys (here in
    the map's key order, Python's is insertion order). *)
Definition iter (v : pyval) : result (list pyval) :=
  match v with
  | PList l => Ok l
  | PStr s => Ok (chars s)
  | PDict d => Ok ((fun kv : string * pyval => PStr kv.1) <$> map_to_list d)
  | PNone | PBool _ | PInt _ | PFloat _ => Raise TypeError
  end.

(** [any(f(p) for p in l)]: stops at the first true element; an exception
    raised on the way propagates. *)
Fixpoint any {A : Type} (f : A -> result bool) (l : list A) : result bool :=
  match l with
  | [] => Ok false
  | p :: r => bind (f p) (fun b => if b then Ok true else any f r)
  end.

End Py.

Import Py.

Notation "'let*' x ':=' m 'in' k" := (Py.bind m (fun x => k))
  (at level 10, x name, m at level 100, k at level 200).

(** ** [mask_system.py] *)

Record Config : Type := {
  api_key : string;
  project : string;
  version : string;
  resize_dim : Z * Z;
  conf_threshold : float;
  mask_conf_threshold : float;
  frame_skip : Z;
  infer_interval : float;
  request_timeout : Z;
  hold_time : float;
  headless : bool
}.

(** [Config(api_key, project, version)] with the dataclass defaults. *)
Definition Config_defaults (key proj ver : string) : Config := {|
  api_key := key;
  project := proj;
  version := ver;
  resize_dim := (128, 96);
  conf_threshold := 0.3%float;
  mask_conf_threshold := 0.7%float;
  frame_skip := 10;
  infer_interval := 0.1%float;
  request_timeout := 10;
  hold_time := 3.0%float;
  headless := false
|}.

Definition set_headless (c : Config) (v : bool) : Config :=
  {| api_key := api_key c; project := project c; version := version c;
     resize_dim := resize_dim c; conf_threshold := conf_threshold c;
     mask_conf_threshold := mask_conf_threshold c;
     frame_skip := frame_skip c; infer_interval := infer_interval c;
     request_timeout := request_timeout c; hold_time := hold_time c;
     headless := v |}.

(** A captured frame: [frame.shape[:2]] is [(frame_h, frame_w)]. *)
Record Frame : Type := {
  frame_h : Z;
  frame_w : Z;
  frame_pixels : list Z
}.

Definition frame_copy (f : Frame) : Frame := f.

(** An entry of [self.predictions]: the dict with keys
    ["x"], ["y"], ["w"], ["h"], ["conf"], ["class"]. The confidence is stored
    as the backend sent it. *)
Record Detection : Type := {
  d_x : float;
  d_y : float;
  d_w : float;
  d_h : float;
  d_conf : pyval;
  d_class : string
}.

(** [queue.Queue(maxsize)]: [put] on a full queue blocks the caller, [get]
    on an empty one raises [Empty] after the timeout; both are [None] here. *)
Record Queue : Type := {
  maxsize : nat;
  items : list Frame
}.

Definition Queue_empty (q : Queue) : bool :=
  match items q with [] => true | _ :: _ => false end.

Definition Queue_full (q : Queue) : bool :=
  ((0 <? maxsize q)%nat && (maxsize q <=? length (items q))%nat)%bool.

Definition Queue_put (q : Queue) (f : Frame) : option Queue :=
  if Queue_full q then None
  else Some {| maxsize := maxsize q; items := items q ++ [f] |}.

Definition Queue_get (q : Queue) : option (Frame * Queue) :=
  match items q with
  | [] => None
  | f :: r => Some (f, {| maxsize := maxsize q; items := r |})
  end.

(** The fields of a [MaskAccessSystem] that the pipeline reads and writes;
    [log] collects the messages emitted at level INFO. *)
Record MaskAccessSystem : Type := {
  cfg : Config;
  predictions : list Detection;
  last_infer : float;
  last_state : option string;
  mask_start : option float;
  access_granted : bool;
  running : bool;
  queue : Queue;
  log : list string
}.

Definition MASK_LABELS : gset string := {[ "face-mask" ]}.
Definition FACE_LABELS : gset string :=
  {[ "face"; "balaclava"; "mask"; "face covering" ]}.

(** [MaskAccessSystem.__init__] *)
Definition __init__ (c : Config) : MaskAccessSystem := {|
  cfg := c;
  predictions := [];
  last_infer := 0.0%float;
  last_state := None;
  mask_start := None;
  access_granted := false;
  running := true;
  queue := {| maxsize := 1; items := [] |};
  log := []
|}.

Definition set_predictions (self : MaskAccessSystem) (v : list Detection) :=
  {| cfg := cfg self; predictions := v; last_infer := last_infer self;
     last_state := last_state self; mask_start := mask_start self;
     access_granted := access_granted self; running := running self;
     queue := queue self; log := log self |}.

Definition set_last_infer (self : MaskAccessSystem) (v : float) :=
  {| cfg := cfg self; predictions := predictions self; last_infer := v;
     last_state := last_state self; mask_start := mask_start self;
     access_granted := access_granted self; running := running self;
     queue := queue self; log := log self |}.

Definition set_last_state (self : MaskAccessSystem) (v : option string) :=
  {| cfg := cfg self; predictions := predictions self;
     last_infer := last_infer self;
     last_state := v; mask_start := mask_start self;
     access_granted := access_granted self; running := running self;
     queue := queue self; log := log self |}.

Definition set_mask_start (self : MaskAccessSystem) (v : option float) :=
  {| cfg := cfg self; predictions := predictions self;
     last_infer := last_infer self;
     last_state := last_state self; mask_start := v;
     access_granted := access_granted self; running := running self;
     queue := queue self; log := log self |}.

Definition set_access_granted (self : MaskAccessSystem) (v : bool) :=
  {| cfg := cfg self; predictions := predictions self;
     last_infer := last_infer self;
     last_state := last_state self; mask_start := mask_start self;
     access_granted := v; running := running self;
     queue := queue self; log := log self |}.

Definition set_queue (self : MaskAccessSystem) (v : Queue) :=
  {| cfg := cfg self; predictions := predictions self;
     last_infer := last_infer self;
     last_state := last_state self; mask_start := mask_start self;
     access_granted := access_granted self; running := running self;
     queue := v; log := log self |}.

Definition log_info (self : MaskAccessSystem) (msg : string) :=
  {| cfg := cfg self; predictions := predictions self;
     last_infer := last_infer self;
     last_state := last_state self; mask_start := mask_start self;
     access_granted := access_granted self; running := running self;
     queue := queue self; log := log self ++ [msg] |}.

(** [_enqueue(frame)], with [now = time.time()]. [None]: the caller is
    blocked in [put]. *)
Definition _enqueue (self : MaskAccessSystem) (frame : Frame) (now : float)
  : option MaskAccessSystem :=
  if (Queue_empty (queue self)
      && (infer_interval (cfg self) <? now - last_infer self)%float)%bool
  then match Queue_put (queue self) (frame_copy frame) with
       | Some q => Some (set_queue self q)
       | None => None
       end
  else Some self.

(** What [self.session.post(...)] returns: the status code and the body as
    [resp.json()] parses it ([None]: the body is not JSON). A network error
    or a timeout is the [Raise] case of the call. *)
Record Response : Type := {
  status_code : Z;
  body : option pyval
}.

Definition raise_for_status (resp : Response) : result unit :=
  if ((400 <=? status_code resp) && (status_code resp <? 600))%bool
  then Raise HTTPError else Ok tt.

Definition json (resp : Response) : result pyval :=
  match body resp with
  | Some v => Ok v
  | None => Raise JSONDecodeError
  end.

(** The body of the loop of [_adjust] for one prediction [p]: [Some] is the
    dict appended to [adjusted], [None] the [continue] of [except KeyError]. *)
Definition adjust_entry (sx sy : float) (p : pyval) : result (option Detection) :=
  let* nm := Py.get p "name" (PStr "") in
  let* raw := Py.get p "class" nm in
  let* cls := Py.lower raw in
  match
    (let* px := getitem p "x" in
     let* a := mul_float px sx in
     let* pw := getitem p "width" in
     let* b := mul_float pw sx in
     let x := (a - b / 2)%float in
     let* py := getitem p "y" in
     let* c := mul_float py sy in
     let* ph := getitem p "height" in
     let* d := mul_float ph sy in
     let y := (c - d / 2)%float in
     let* pw' := getitem p "width" in
     let* w_box := mul_float pw' sx in
     let* ph' := getitem p "height" in
     let* h_box := mul_float ph' sy in
     let* conf := getitem p "confidence" in
     Ok {| d_x := x; d_y := y; d_w := w_box; d_h := h_box;
           d_conf := conf; d_class := cls |})
  with
  | Ok d => Ok (Some d)
  | Raise KeyError => Ok None
  | Raise e => Raise e
  end.

Fixpoint adjust_loop (sx sy : float) (preds : list pyval)
    (adjusted : list Detection) : result (list Detection) :=
  match preds with
  | [] => Ok adjusted
  | p :: rest =>
      let* o := adjust_entry sx sy p in
      adjust_loop sx sy rest
        (match o with Some d => adjusted ++ [d] | None => adjusted end)
  end.

(** [_adjust(preds, dims)] with [dims = (h, w)]. *)
Definition _adjust (self : MaskAccessSystem) (preds : pyval) (dims : Z * Z)
  : result MaskAccessSystem :=
  let '(h, w) := dims in
  let* sx := int_truediv w (resize_dim (cfg self)).1 in
  let* sy := int_truediv h (resize_dim (cfg self)).2 in
  let* ps := Py.iter preds in
  let* adjusted := adjust_loop sx sy ps [] in
  Ok (set_predictions self adjusted).

(** The [try] block of [_infer]. *)
Definition infer_try (self : MaskAccessSystem) (frame : Frame)
    (post : result Response) (now : float) : result MaskAccessSystem :=
  let* resp := post in
  let* ok := raise_for_status resp in
  let* js := json resp in
  let* data := Py.get js "predictions" (PList []) in
  let* self' := _adjust self data (frame_h frame, frame_w frame) in
  Ok (set_last_infer self' now).

(** [_infer(frame)]: [encoded] is the outcome of [cv2.resize] and
    [cv2.imencode], which run before the [try]: the flag [ok] that
    [imencode] returns, or the [cv2.error] that either call raises, which
    nothing catches. [post] is the outcome of the network call, [now] the
    clock after [_adjust]. The handler logs at level DEBUG, which the INFO
    logger discards. *)
Definition _infer (self : MaskAccessSystem) (frame : Frame)
    (encoded : result bool) (post : result Response) (now : float)
  : result MaskAccessSystem :=
  let* ok := encoded in
  if negb ok then Ok self
  else match infer_try self frame post now with
       | Ok self' => Ok self'
       | Raise _ => Ok self
       end.

(** [_change_state(new_state, msg)] *)
Definition _change_state (self : MaskAccessSystem) (new_state : option string)
    (msg : option string) : MaskAccessSystem :=
  if bool_decide (new_state ≠ last_state self) then
    let self1 :=
      match msg with
      | Some m => if bool_decide (m = "") then self else log_info self m
      | None => self
      end in
    set_last_state self1 new_state
  else self.

(** The two [any(...)] of [_update_access], over [preds = self.predictions]. *)
Definition has_mask (c : Config) (preds : list Detection) : result bool :=
  Py.any (fun p : Detection =>
            if bool_decide (d_class p ∈ MASK_LABELS)
            then ge_float (d_conf p) (mask_conf_threshold c)
            else Ok false)
         preds.

Definition has_face (c : Config) (preds : list Detection) : result bool :=
  Py.any (fun p : Detection =>
            if bool_decide (d_class p ∈ FACE_LABELS)
            then ge_float (d_conf p) (conf_threshold c)
            else Ok false)
         preds.

(** [_update_access()], with [now = time.time()]. *)
Definition _update_access (self : MaskAccessSystem) (now : float)
  : result MaskAccessSystem :=
  let preds := predictions self in
  let* hm := has_mask (cfg self) preds in
  let* hf := has_face (cfg self) preds in
  if hm then
    match mask_start self with
    | None => Ok (set_mask_start self (Some now))
    | Some t0 =>
        if (hold_time (cfg self) <=? now - t0)%float then
          Ok (set_access_granted
                (_change_state self (Some "liberado") (Some "Acesso liberado"))
                true)
        else Ok self
    end
  else if hf then
    Ok (set_access_granted
          (_change_state (set_mask_start self None) (Some "negado")
             (Some "Acesso negado: necessário máscara"))
          false)
  else
    Ok (_change_state (set_mask_start self None) None None).

(** One iteration of the loop of [_process_frames], as the state machine
    sees it: [snapshot] is the value of [self.predictions] at that
    iteration (the one the worker published last), [tick_now] the clock
    [_update_access] reads. *)
Record Tick : Type := {
  snapshot : list Detection;
  tick_now : float
}.

Definition tick (self : MaskAccessSystem) (t : Tick) : result MaskAccessSystem :=
  _update_access (set_predictions self (snapshot t)) (tick_now t).

Fixpoint run_ticks (self : MaskAccessSystem) (ts : list Tick)
  : result MaskAccessSystem :=
  match ts with
  | [] => Ok self
  | t :: rest => let* self' := tick self t in run_ticks self' rest
  end.

(** ** The capture loop and the worker of [_infer_loop], interleaved

    The capture loop calls [_enqueue]; the worker takes the pending frame
    with [queue.get], posts it, and later runs the rest of [_infer] on the
    response. [calls] lists the instants at which a request was posted,
    oldest first. An exception that leaves [_infer] leaves [_infer_loop]
    too and ends the worker thread: [worker_alive] is cleared. *)
Record World : Type := {
  sys : MaskAccessSystem;
  in_flight : option Frame;
  calls : list float;
  worker_alive : bool
}.

Inductive Event : Type :=
  | Submit (frame : Frame) (now : float)
  | WorkerGet (encoded : result bool) (now : float)
  | WorkerDone (post : result Response) (now : float).

Definition event_time (e : Event) : float :=
  match e with
  | Submit _ now | WorkerGet _ now | WorkerDone _ now => now
  end.

(** [None]: the event cannot happen in [w] (the worker is busy or has
    ended, the queue is empty, or the caller of [put] is blocked). *)
Definition step (w : World) (e : Event) : option World :=
  match e with
  | Submit frame now =>
      match _enqueue (sys w) frame now with
      | Some s => Some {| sys := s; in_flight := in_flight w;
                          calls := calls w; worker_alive := worker_alive w |}
      | None => None
      end
  | WorkerGet encoded now =>
      if worker_alive w then
        match in_flight w, Queue_get (queue (sys w)) with
        | None, Some (frame, q) =>
            let s := set_queue (sys w) q in
            match encoded with
            | Ok true =>
                Some {| sys := s; in_flight := Some frame;
                        calls := calls w ++ [now]; worker_alive := true |}
            | Ok false =>
                Some {| sys := s; in_flight := None; calls := calls w;
                        worker_alive := true |}
            | Raise _ =>
                Some {| sys := s; in_flight := None; calls := calls w;
                        worker_alive := false |}
            end
        | _, _ => None
        end
      else None
  | WorkerDone post now =>
      match in_flight w with
      | Some frame =>
          match _infer (sys w) frame (Ok true) post now with
          | Ok s => Some {| sys := s; in_flight := None; calls := calls w;
                            worker_alive := worker_alive w |}
          | Raise _ => None
          end
      | None => None
      end
  end.

Fixpoint run (w : World) (es : list Event) : option World :=
  match es with
  | [] => Some w
  | e :: rest =>
      match step w e with
      | Some w' => run w' rest
      | None => None
      end
  end.

Definition World_init (c : Config) : World :=
  {| sys := __init__ c; in_flight := None; calls := [];
     worker_alive := true |}.

(** The clock does not go back along a trace. *)
Fixpoint chronological (es : list Event) : bool :=
  match es with
  | e1 :: ((e2 :: _) as rest) =>
      ((event_time e1 <=? event_time e2)%float && chronological rest)%bool
  | _ => true
  end.

(** Every two consecutive requests are at least [interval] apart. *)
Fixpoint spaced (interval : float) (ts : list float) : bool :=
  match ts with
  | t1 :: ((t2 :: _) as rest) =>
      (negb (t2 - t1 <? interval)%float && spaced interval rest)%bool
  | _ => true
  end.

(** ** The loop of [_process_frames], beside the worker

    [_display] draws on a window and reads the keyboard through OpenCV; it
    is a parameter of the loop, called when the system is not headless. *)

Inductive Outcome (A : Type) : Type :=
  | Went (a : A)
  | Blocked
  | Threw (e : exn)
  | Disabled.
Arguments Went {A} a.
Arguments Blocked {A}.
Arguments Threw {A} e.
Arguments Disabled {A}.

(** What one iteration reads from outside: the frame [_capture] returns
    ([None] when the capture fails), the clock [_enqueue] reads and the
    clock [_update_access] reads. *)
Record Capture : Type := {
  captured : option Frame;
  enqueue_clock : float;
  update_clock : float
}.

Definition set_running (self : MaskAccessSystem) (v : bool) :=
  {| cfg := cfg self; predictions := predictions self;
     last_infer := last_infer self;
     last_state := last_state self; mask_start := mask_start self;
     access_granted := access_granted self; running := v;
     queue := queue self; log := log self |}.

Section ProcessFrames.

Variable _display : MaskAccessSystem -> Frame -> result MaskAccessSystem.

(** The body of the [while self.running] loop, from [frame = self._capture()]
    on. Beside the system and [frame_idx] it returns the call of [_enqueue]
    it made, if any, as a [Submit] event. *)
Definition process_frame (self : MaskAccessSystem) (frame_idx : Z)
    (cap : Capture) : Outcome (MaskAccessSystem * Z * list Event) :=
  match captured cap with
  | None => Went (self, frame_idx, [])
  | Some frame =>
      let frame_idx := frame_idx + 1 in
      if frame_skip (cfg self) =? 0 then Threw ZeroDivisionError
      else
        let offer := frame_idx mod frame_skip (cfg self) =? 0 in
        match (if offer then _enqueue self frame (enqueue_clock cap)
               else Some self) with
        | None => Blocked
        | Some self1 =>
            match _update_access self1 (update_clock cap) with
            | Raise e => Threw e
            | Ok self2 =>
                let offered :=
                  if offer then [Submit frame (enqueue_clock cap)] else [] in
                if headless (cfg self2) then Went (self2, frame_idx, offered)
                else match _display self2 frame with
                     | Ok self3 => Went (self3, frame_idx, offered)
                     | Raise e => Threw e
                     end
            end
        end
  end.

(** The thread of [_process_frames], the worker and the caller that clears
    [running], interleaved: the world of the hand-off, the counter
    [frame_idx] and the calls of [_enqueue] made so far. *)
Record LoopState : Type := {
  world : World;
  frame_idx : Z;
  offered : list Event
}.

Inductive LoopEvent : Type :=
  | Iteration (cap : Capture)
  | Get (encoded : result bool) (now : float)
  | Done (post : result Response) (now : float)
  | Stop.

Definition with_world (st : LoopState) (w : option World) : Outcome LoopState :=
  match w with
  | Some w' => Went {| world := w'; frame_idx := frame_idx st;
                       offered := offered st |}
  | None => Disabled
  end.

Definition loop_step (st : LoopState) (ev : LoopEvent) : Outcome LoopState :=
  match ev with
  | Iteration cap =>
      if running (sys (world st)) then
        match process_frame (sys (world st)) (frame_idx st) cap with
        | Went (self', idx, evs) =>
            Went {| world := {| sys := self';
                                in_flight := in_flight (world st);
                                calls := calls (world st);
                                worker_alive := worker_alive (world st) |};
                    frame_idx := idx;
                    offered := offered st ++ evs |}
        | Blocked => Blocked
        | Threw e => Threw e
        | Disabled => Disabled
        end
      else Disabled
  | Get encoded now => with_world st (step (world st) (WorkerGet encoded now))
  | Done post now => with_world st (step (world st) (WorkerDone post now))
  | Stop =>
      Went {| world := {| sys := set_running (sys (world st)) false;
                          in_flight := in_flight (world st);
                          calls := calls (world st);
                          worker_alive := worker_alive (world st) |};
              frame_idx := frame_idx st;
              offered := offered st |}
  end.

Fixpoint loop_run (st : LoopState) (evs : list LoopEvent) : Outcome LoopState :=
  match evs with
  | [] => Went st
  | ev :: rest =>
      match loop_step st ev with
      | Went st' => loop_run st' rest
      | o => o
      end
  end.

End ProcessFrames.

Definition loop_init (c : Config) : LoopState :=
  {| world := World_init c; frame_idx := 0; offered := [] |}.

(** The frames captured along a trace. *)
Definition frames_captured (evs : list LoopEvent) : list Frame :=
  omap (fun ev => match ev with
                  | Iteration cap => captured cap
                  | _ => None
                  end) evs.

(** The calls of [_enqueue] along a trace of the hand-off. *)
Definition is_submit (e : Event) : bool :=
  match e with Submit _ _ => true | _ => false end.

Definition submissions (es : list Event) : list Event :=
  List.filter is_submit es.

(** ** [projeto_camera.py] *)

Module ProjetoCamera.

Definition nl : string := String (ascii_of_nat 10) EmptyString.

(** The table [tags]: the column [tag] is unique, so it is a map from the
    tag to [nome]. [tag_autorizada] returns the row [fetchone()] gives. *)
Definition tag_autorizada (db : gmap string string) (tag : string)
  : option string :=
  db !! tag.

Inductive Effect : Type :=
  | Print (s : string)
  | Sleep (secs : float)
  | LogTagErro (tag : string)
  | SerialWrite (line : string)
  | NewDetector (c : Config)
  | StartThread
  | StopDetector
  | JoinThread.

Definition negar_acesso : Effect := SerialWrite ("ACESSO:NEGADO" +:+ nl).
Definition liberar_acesso : Effect := SerialWrite ("ACESSO:OK" +:+ nl).

(** The configuration [main] builds:
    [Config(api_key=..., project="cover-2", version="10", headless=True)]. *)
Definition main_cfg : Config :=
  set_headless (Config_defaults "iLrZkatUZLBk7QqnYC8s" "cover-2" "10") true.

(** One iteration of the [while True] loop of [main]: [tag] is what
    [arduino.ler_tag()] returned, [granted] whether the polling loop saw
    [detector.access_granted] before its deadline. The result lists what
    the iteration does, in order (the sleeps of the polling loop apart). *)
Definition main_iteration (db : gmap string string) (tag : option string)
    (granted : bool) : list Effect :=
  match tag with
  | None | Some "" => [Sleep 0.1]
  | Some tag =>
      Print ("TAG detectada: " +:+ tag) ::
      match tag_autorizada db tag with
      | None =>
          [ Print "TAG não cadastrada.";
            LogTagErro tag;
            negar_acesso;
            Sleep 1 ]
      | Some nome =>
          [ Print ("Autorizada: " +:+ nome
                   +:+ ". Iniciando detecção de máscara...");
            SerialWrite ("LCD:Aproxime o rosto" +:+ nl);
            Sleep 1;
            NewDetector main_cfg;
            StartThread ] ++
          (if granted
           then [ Print "Máscara detectada: acesso liberado."; liberar_acesso ]
           else [ Print "Nenhuma máscara detectada: acesso negado.";
                  negar_acesso ]) ++
          [ StopDetector; JoinThread; Sleep 1;
            Print ("Pronto para próxima TAG." +:+ nl); Sleep 1 ]
      end
  end.

End ProjetoCamera.

(** ** The session of [main]: the polling loop and its deadline *)

(** The polling loop [while time.time() < deadline]: each iteration reads
    the clock and, before the deadline, [detector.access_granted]; the
    readings are listed in order. [Some true] is the [break] on a grant,
    [Some false] the [else] of the loop, [None] a loop still going when the
    readings run out. *)
Fixpoint poll (deadline : float) (readings : list (float * bool))
  : option bool :=
  match readings with
  | [] => None
  | (now, granted) :: rest =>
      if (now <? deadline)%float
      then if granted then Some true else poll deadline rest
      else Some false
  end.

(** An iteration of the loop of [main] with its polling loop: [started] is
    the clock read for [deadline = time.time() + 10]. *)
Definition main_read (db : gmap string string) (tag : option string)
    (started : float) (readings : list (float * bool))
  : option (list ProjetoCamera.Effect) :=
  match tag with
  | None | Some "" => Some (ProjetoCamera.main_iteration db tag false)
  | Some t =>
      match ProjetoCamera.tag_autorizada db t with
      | None => Some (ProjetoCamera.main_iteration db tag false)
      | Some _ =>
          match poll (started + 10) readings with
          | Some granted => Some (ProjetoCamera.main_iteration db tag granted)
          | None => None
          end
      end
  end.

(** The lines that decide: [ACESSO:OK] and [ACESSO:NEGADO]. *)
Definition is_decision (e : ProjetoCamera.Effect) : bool :=
  match e with
  | ProjetoCamera.SerialWrite line =>
      (String.eqb line ("ACESSO:OK" +:+ ProjetoCamera.nl)
       || String.eqb line ("ACESSO:NEGADO" +:+ ProjetoCamera.nl))%bool
  | _ => false
  end.

(** ** [projeto_camera.py]: the reader and the table of tags

    [str.strip], [str.upper] and [str.startswith] on ASCII text: the
    characters [str.isspace] accepts below 128 are 9 to 13, 28 to 31 and
    32. *)

Definition is_space (c : ascii) : bool :=
  let n := nat_of_ascii c in
  (((9 <=? n)%nat && (n <=? 13)%nat) || ((28 <=? n)%nat && (n <=? 32)%nat))%bool.

Fixpoint lstrip (s : string) : string :=
  match s with
  | EmptyString => EmptyString
  | String c r => if is_space c then lstrip r else s
  end.

Fixpoint rstrip (s : string) : string :=
  match s with
  | EmptyString => EmptyString
  | String c r =>
      match rstrip r with
      | EmptyString => if is_space c then EmptyString else String c EmptyString
      | r' => String c r'
      end
  end.

Definition strip (s : string) : string := rstrip (lstrip s).

Definition upper_ascii (c : ascii) : ascii :=
  let n := nat_of_ascii c in
  if ((97 <=? n)%nat && (n <=? 122)%nat)%bool then ascii_of_nat (n - 32) else c.

Fixpoint upper (s : string) : string :=
  match s with
  | EmptyString => EmptyString
  | String c r => String (upper_ascii c) (upper r)
  end.

(** [s[n:]] *)
Fixpoint slice_from (n : nat) (s : string) : string :=
  match n, s with
  | O, _ => s
  | S n', String _ r => slice_from n' r
  | S _, EmptyString => EmptyString
  end.

(** Text all of whose characters are ASCII: what the definitions above are
    Python's on. *)
Definition ascii_text (s : string) : Prop :=
  Forall (fun c => (nat_of_ascii c < 128)%nat) (list_ascii_of_string s).

(** [Arduino.ler_tag]: [waiting] is the decoded line [readline()] returns
    when [in_waiting] is not zero, [None] when it is. *)
Definition ler_tag (waiting : option string) : option string :=
  match waiting with
  | None => None
  | Some read =>
      let linha := strip read in
      if String.prefix "TAG:" linha
      then Some (upper (strip (slice_from 4 linha)))
      else None
  end.

(** A row of the table [tags]. The column [id] is left out: with
    AUTOINCREMENT it grows with every insertion, so the rows, kept in the
    order of insertion, are in the order of their ids. *)
Record Row : Type := {
  row_nome : string;
  row_tag : string
}.

Definition has_tag (t : list Row) (tag : string) : bool :=
  existsb (fun r => String.eqb (row_tag r) tag) t.

(** What a statement that can break the constraint [UNIQUE] gives:
    [sqlite3.IntegrityError], or its result. *)
Inductive Sql (A : Type) : Type :=
  | Sql_ok (a : A)
  | IntegrityError.
Arguments Sql_ok {A} a.
Arguments IntegrityError {A}.

(** [INSERT INTO tags (nome, tag) VALUES (?, ?)] *)
Definition sql_insert (t : list Row) (nome tag : string) : Sql (list Row) :=
  if has_tag t tag then IntegrityError
  else Sql_ok (t ++ [{| row_nome := nome; row_tag := tag |}]).

(** [UPDATE tags SET tag = ? WHERE tag = ?], on a table whose tags are
    unique. *)
Definition sql_update_tag (t : list Row) (new_tag old_tag : string)
  : Sql (list Row) :=
  if (has_tag t old_tag && negb (String.eqb new_tag old_tag)
      && has_tag t new_tag)%bool
  then IntegrityError
  else Sql_ok ((fun r => if String.eqb (row_tag r) old_tag
                         then {| row_nome := row_nome r; row_tag := new_tag |}
                         else r) <$> t).

(** [UPDATE tags SET nome = ? WHERE tag = ?] *)
Definition sql_update_nome (t : list Row) (new_nome old_tag : string)
  : list Row :=
  (fun r => if String.eqb (row_tag r) old_tag
            then {| row_nome := new_nome; row_tag := row_tag r |}
            else r) <$> t.

(** [DELETE FROM tags WHERE tag = ?], with [cur.rowcount]. *)
Definition sql_delete (t : list Row) (tag : string) : list Row * nat :=
  let kept := List.filter (fun r => negb (String.eqb (row_tag r) tag)) t in
  (kept, (length t - length kept)%nat).

(** [SELECT nome FROM tags WHERE tag = ?]: the table as [tag_autorizada]
    reads it. *)
Definition tags_map (t : list Row) : gmap string string :=
  list_to_map ((fun r => (row_tag r, row_nome r)) <$> t).

(** [create_tag(nome, tag)]: the table and what is printed. *)
Definition create_tag (t : list Row) (nome tag : string)
  : list Row * list string :=
  match sql_insert t nome tag with
  | Sql_ok t' =>
      (t', ["[CRUD] Tag '" +:+ tag +:+ "' cadastrada para '" +:+ nome +:+ "'."])
  | IntegrityError => (t, ["[CRUD] Erro: Tag '" +:+ tag +:+ "' já existe."])
  end.

(** The truth value of an optional string argument ([None] and [""] are
    false). *)
Definition given (s : option string) : option string :=
  match s with
  | Some "" | None => None
  | Some v => Some v
  end.

(** [update_tag(old_tag, new_tag, new_nome)]: the error of the first
    statement is not caught. *)
Definition update_tag (t : list Row) (old_tag : string)
    (new_tag new_nome : option string) : Sql (list Row * list string) :=
  let after_tag :=
    match given new_tag with
    | Some v =>
        match sql_update_tag t v old_tag with
        | Sql_ok t' =>
            Sql_ok (t', ["[CRUD] Tag '" +:+ old_tag +:+ "' alterada para '"
                         +:+ v +:+ "'."])
        | IntegrityError => IntegrityError
        end
    | None => Sql_ok (t, [])
    end in
  match after_tag with
  | Sql_ok (t1, out1) =>
      match given new_nome with
      | Some v =>
          Sql_ok (sql_update_nome t1 v old_tag,
                  out1 ++ ["[CRUD] Nome da tag '" +:+ old_tag
                           +:+ "' atualizado para '" +:+ v +:+ "'."])
      | None => Sql_ok (t1, out1)
      end
  | IntegrityError => IntegrityError
  end.

(** [delete_tag(tag)] *)
Definition delete_tag (t : list Row) (tag : string) : list Row * list string :=
  let '(t', rowcount) := sql_delete t tag in
  (t', [if (rowcount =? 0)%nat
        then "[CRUD] Tag '" +:+ tag +:+ "' não encontrada."
        else "[CRUD] Tag '" +:+ tag +:+ "' removida."]).

(** How the thread of [crud_menu] ends: the operator left with [x], the
    input ran out ([input()] raises [EOFError]), or [update_tag] raised. *)
Inductive MenuEnd : Type :=
  | Exited
  | InputEnded
  | Crashed.

(** [crud_menu()], on the lines that [input()] returns: the table it leaves,
    the messages of the operations (the banner, the prompts and the listing
    of [list_tags] apart) and how it ends. *)
Fixpoint crud_menu (t : list Row) (inputs : list string)
  : list Row * list string * MenuEnd :=
  match inputs with
  | [] => (t, [], InputEnded)
  | line :: rest =>
      let cmd := lower_string (strip line) in
      if String.eqb cmd "c" then
        match rest with
        | nome :: tag :: rest' =>
            let '(t1, out) := create_tag t (strip nome) (upper (strip tag)) in
            let '(t2, out', e) := crud_menu t1 rest' in
            (t2, out ++ out', e)
        | _ => (t, [], InputEnded)
        end
      else if String.eqb cmd "l" then crud_menu t rest
      else if String.eqb cmd "u" then
        match rest with
        | old :: choice :: rest' =>
            let old := upper (strip old) in
            let choice := lower_string (strip choice) in
            if String.eqb choice "n" then
              match rest' with
              | novo :: rest'' =>
                  match update_tag t old None (Some (strip novo)) with
                  | Sql_ok (t1, out) =>
                      let '(t2, out', e) := crud_menu t1 rest'' in
                      (t2, out ++ out', e)
                  | IntegrityError => (t, [], Crashed)
                  end
              | [] => (t, [], InputEnded)
              end
            else if String.eqb choice "t" then
              match rest' with
              | novo :: rest'' =>
                  match update_tag t old (Some (upper (strip novo))) None with
                  | Sql_ok (t1, out) =>
                      let '(t2, out', e) := crud_menu t1 rest'' in
                      (t2, out ++ out', e)
                  | IntegrityError => (t, [], Crashed)
                  end
              | [] => (t, [], InputEnded)
              end
            else
              let '(t2, out', e) := crud_menu t rest' in
              (t2, "    [CRUD] Opção inválida." :: out', e)
        | _ => (t, [], InputEnded)
        end
      else if String.eqb cmd "d" then
        match rest with
        | tag :: rest' =>
            let '(t1, out) := delete_tag t (upper (strip tag)) in
            let '(t2, out', e) := crud_menu t1 rest' in
            (t2, out ++ out', e)
        | [] => (t, [], InputEnded)
        end
      else if String.eqb cmd "x" then (t, ["[CRUD] Saindo do menu."], Exited)
      else
        let '(t2, out', e) := crud_menu t rest in
        (t2, "[CRUD] Opção inválida." :: out', e)
  end.

(** The normal form [.strip().upper()] that the menu gives a tag it is
    told and the reader a tag it reads. *)
Definition normalise (s : string) : string := upper (strip s).

(** ** Vocabulary of the properties *)

(** What the snapshot of a tick shows, under the thresholds of [c]. *)
Definition masked (c : Config) (t : Tick) : Prop :=
  has_mask c (snapshot t) = Ok true /\ exists hf, has_face c (snapshot t) = Ok hf.

Definition face_without_mask (c : Config) (t : Tick) : Prop :=
  has_mask c (snapshot t) = Ok false /\ has_face c (snapshot t) = Ok true.

Definition no_detection (c : Config) (t : Tick) : Prop :=
  has_mask c (snapshot t) = Ok false /\ has_face c (snapshot t) = Ok false.

(** The label of a raw prediction: [p.get("class", p.get("name", ""))]. *)
Definition label (d : gmap string pyval) : pyval :=
  default (default (PStr "") (d !! "name")) (d !! "class").

(** A raw prediction the loop of [_adjust] goes through without a
    [TypeError] or an [AttributeError]: its label is a string and those of
    its box fields that are present are numbers. *)
Definition well_typed (d : gmap string pyval) : Prop :=
  (exists s, label d = PStr s) /\
  forall k v, k ∈ ["x"; "y"; "width"; "height"] -> d !! k = Some v ->
    exists f, to_float v = Ok f.

(** The same, as a test that can be run. *)
Definition well_typedb (d : gmap string pyval) : bool :=
  match label d with PStr _ => true | _ => false end &&
  forallb (fun k : string =>
             match d !! k with
             | Some v => match to_float v with Ok _ => true | Raise _ => false end
             | None => true
             end)
          ["x"; "y"; "width"; "height"].

Definition num (v : pyval) : float :=
  match to_float v with Ok f => f | Raise _ => nan end.

Definition text (v : pyval) : string :=
  match v with PStr s => s | _ => "" end.

(** The mapper as the specification words it: a prediction that has the
    five fields [x], [y], [width], [height], [confidence] becomes the
    corner-based box scaled by [(sx, sy)], with its label in lower case;
    one that misses a field is dropped. *)
Definition mapped_entry (sx sy : float) (d : gmap string pyval)
  : option Detection :=
  match d !! "x", d !! "y", d !! "width", d !! "height", d !! "confidence" with
  | Some px, Some py, Some pw, Some ph, Some conf =>
      Some {| d_x := (num px * sx - num pw * sx / 2)%float;
              d_y := (num py * sy - num ph * sy / 2)%float;
              d_w := (num pw * sx)%float;
              d_h := (num ph * sy)%float;
              d_conf := conf;
              d_class := lower_string (text (label d)) |}
  | _, _, _, _, _ => None
  end.

(** The mapper as the specification words it, for the box alone: the
    centre-based box [(x, y, width, height)] of a raw prediction that has
    the five fields, and the corner-based box it becomes under the scale
    factors [(sx, sy)]. *)
Definition centre_box (d : gmap string pyval)
  : option (float * float * float * float) :=
  match d !! "x", d !! "y", d !! "width", d !! "height", d !! "confidence" with
  | Some px, Some py, Some pw, Some ph, Some _ =>
      match to_float px, to_float py, to_float pw, to_float ph with
      | Ok x, Ok y, Ok width, Ok height => Some (x, y, width, height)
      | _, _, _, _ => None
      end
  | _, _, _, _, _ => None
  end.

Definition corner_box (sx sy : float) (b : float * float * float * float)
  : float * float * float * float :=
  let '(x, y, width, height) := b in
  ((x * sx - width * sx / 2)%float, (y * sy - height * sy / 2)%float,
   (width * sx)%float, (height * sy)%float).

(** The box of a published detection: [(x, y, w, h)]. *)
Definition box (det : Detection) : float * float * float * float :=
  (d_x det, d_y det, d_w det, d_h det).

(** A raw prediction that has the five fields the loop of [_adjust] reads
    inside its [try]. *)
Definition complete (d : gmap string pyval) : bool :=
  match d !! "x", d !! "y", d !! "width", d !! "height", d !! "confidence" with
  | Some _, Some _, Some _, Some _, Some _ => true
  | _, _, _, _, _ => false
  end.

(** What a published detection [det] keeps of the raw prediction [d] it
    comes from: the confidence as sent, and the label in lower case, the
    label being the field [class], else the field [name], else the empty
    string. The class is stated for labels that are ASCII text. *)
Definition labelled_from (d : gmap string pyval) (det : Detection) : Prop :=
  (d !! "confidence" = Some (d_conf det)) /\
  (forall c, d !! "class" = Some (PStr c) -> ascii_text c ->
     d_class det = lower_string c) /\
  (forall n, d !! "class" = None -> d !! "name" = Some (PStr n) ->
     ascii_text n -> d_class det = lower_string n) /\
  (d !! "class" = None -> d !! "name" = None -> d_class det = "").






(** The slot of the hand-off: a queue of capacity one with at most one
    frame in it. *)
Definition single_slot (w : World) : Prop :=
  maxsize (queue (sys w)) = 1%nat /\
  (length (items (queue (sys w))) <= 1)%nat.

(** ** Sample inputs, on which the definitions are run *)

Definition sample_cfg : Config := ProjetoCamera.main_cfg.

Definition sample_frame : Frame :=
  {| frame_h := 384; frame_w := 512; frame_pixels := [] |}.

Definition detection (cls : string) (conf : float) : Detection :=
  {| d_x := 176; d_y := 132; d_w := 160; d_h := 120;
     d_conf := PFloat conf; d_class := cls |}.

Definition mask_at (now : float) : Tick :=
  {| snapshot := [detection "face-mask" 0.95]; tick_now := now |}.

Definition face_at (now : float) : Tick :=
  {| snapshot := [detection "face" 0.9]; tick_now := now |}.

Definition nothing_at (now : float) : Tick :=
  {| snapshot := []; tick_now := now |}.

(** The raw result of scenario 2 of the specification. *)
Definition scenario2_prediction : gmap string pyval :=
  list_to_map [ ("x", PInt 64); ("y", PInt 48); ("width", PInt 40);
                ("height", PInt 30); ("confidence", PFloat 0.8);
                ("class", PStr "face-mask") ].

(** A complete box that carries no label. *)
Definition unlabelled_prediction : gmap string pyval :=
  list_to_map [ ("x", PInt 64); ("y", PInt 48); ("width", PInt 40);
                ("height", PInt 30); ("confidence", PFloat 0.8) ].

(** A labelled prediction without a box. *)
Definition boxless_prediction : gmap string pyval :=
  list_to_map [ ("confidence", PFloat 0.9); ("name", PStr "Face") ].

(** A complete box labelled under [name], in mixed case. *)
Definition named_prediction : gmap string pyval :=
  list_to_map [ ("x", PFloat 32); ("y", PFloat 24); ("width", PInt 16);
                ("height", PInt 12); ("confidence", PFloat 0.5);
                ("name", PStr "Face-Mask") ].


Definition response (v : pyval) : result Response :=
  Ok {| status_code := 200; body := Some v |}.

(** A complete box whose [x] is a string. *)
Definition mistyped_prediction : gmap string pyval :=
  list_to_map [ ("x", PStr "64"); ("y", PInt 48); ("width", PInt 40);
                ("height", PInt 30); ("confidence", PFloat 0.8);
                ("class", PStr "face") ].

(** A complete box whose [x] is an integer beyond the range of a float. *)
Definition oversized_prediction : gmap string pyval :=
  list_to_map [ ("x", PInt (10 ^ 400)); ("y", PInt 48); ("width", PInt 40);
                ("height", PInt 30); ("confidence", PFloat 0.8);
                ("class", PStr "face") ].


(** The body [{"predictions": []}]. *)
Definition no_predictions : pyval := PDict {[ "predictions" := PList [] ]}.

(** A mask reported in capitals under [name], with an integer confidence. *)
Definition shouted_prediction : gmap string pyval :=
  list_to_map [ ("x", PInt 64); ("y", PInt 48); ("width", PInt 40);
                ("height", PInt 30); ("confidence", PInt 1);
                ("name", PStr "FACE-MASK") ].

(** An iteration of the capture loop at clock [now]; one whose capture
    fails. *)
Definition iteration_at (now : float) : LoopEvent :=
  Iteration {| captured := Some sample_frame; enqueue_clock := now;
               update_clock := now |}.

Definition failed_iteration : LoopEvent :=
  Iteration {| captured := None; enqueue_clock := 0; update_clock := 0 |}.

(** Twenty-five captured frames and a failed capture, with the worker
    taking the first frame offered. *)
Definition sample_loop_trace : list LoopEvent :=
  replicate 10 (iteration_at 100) ++ [failed_iteration; Get (Ok true) 100.5] ++
  replicate 15 (iteration_at 101).

Definition no_display (self : MaskAccessSystem) (frame : Frame)
  : result MaskAccessSystem := Ok self.

(** A line of the reader, with blanks and a line end, in lower case. *)
Definition sample_line_tail : string :=
  " 04a1b2 " +:+ String (ascii_of_nat 13) (String (ascii_of_nat 10) EmptyString).

(** A table with two tags. *)
Definition sample_table : list Row :=
  [ {| row_nome := "Ana"; row_tag := "04A1B2" |};
    {| row_nome := "Bob"; row_tag := "FFEE01" |} ].

(** The hand-off with a frame pending and the worker idle. *)
Definition sample_pending : World :=
  {| sys := set_queue (__init__ sample_cfg)
              {| maxsize := 1; items := [sample_frame] |};
     in_flight := None; calls := []; worker_alive := true |}.

(** The system after a grant: the state is ["liberado"], the flag is set. *)
Definition sample_granted : MaskAccessSystem :=
  set_access_granted
    (set_last_state (set_mask_start (__init__ sample_cfg) (Some 10%float))
       (Some "liberado"))
    true.

(** ** Vocabulary of the further properties *)

(** A tick whose snapshot holds a qualifying mask detection. *)
Definition mask_seen (c : Config) (t : Tick) : Prop :=
  has_mask c (snapshot t) = Ok true.

(** The ticks [ts] contain a stretch [t0 ... tk] of ticks that all show a
    mask and whose ends are at least [hold_time] apart. *)
Definition hold_witnessed (c : Config) (ts : list Tick) : Prop :=
  exists pre t0 mid tk post,
    ts = pre ++ t0 :: mid ++ tk :: post /\
    Forall (mask_seen c) (t0 :: mid ++ [tk]) /\
    (hold_time c <=? tick_now tk - tick_now t0)%float = true.

(** The hold in progress began at a tick of the history [h], at the clock
    [start], and every tick since has shown a mask. *)
Definition hold_running (c : Config) (h : list Tick) (start : float) : Prop :=
  exists pre t0 mid,
    h = pre ++ t0 :: mid /\ tick_now t0 = start /\
    Forall (mask_seen c) (t0 :: mid).

(** A confidence that [>=] can compare with a threshold. *)
Definition is_number (v : pyval) : Prop :=
  match v with
  | PFloat _ | PInt _ | PBool _ => True
  | PNone | PStr _ | PList _ | PDict _ => False
  end.

(** The requests posted and the frames pending. *)
Definition backlog (w : World) : nat :=
  (length (calls w) + length (items (queue (sys w))))%nat.

(** What holds of every state that the loop of [_process_frames], the
    worker and the caller reach from [loop_init c], after [n] captured
    frames. *)
Definition loop_inv (c : Config) (st : LoopState) (n : nat) : Prop :=
  cfg (sys (world st)) = c /\
  single_slot (world st) /\
  frame_idx st = Z.of_nat n /\
  Z.of_nat (length (offered st)) = frame_idx st / frame_skip c /\
  (backlog (world st) <= length (offered st))%nat.

(** The first row of the table with a given tag, as the [SELECT] of
    [tag_autorizada] finds it. *)
Fixpoint select_nome (t : list Row) (tag : string) : option string :=
  match t with
  | [] => None
  | r :: rest => if String.eqb (row_tag r) tag then Some (row_nome r)
                 else select_nome rest tag
  end.

(** The constraint [UNIQUE] on the column [tag]. *)
Definition unique_tags (t : list Row) : Prop := NoDup (row_tag <$> t).

(** A test of [ascii_text] that can be run. *)
Definition ascii_textb (s : string) : bool :=
  forallb (fun c => (nat_of_ascii c <? 128)%nat) (list_ascii_of_string s).

(** ** Binary64 comparisons *)

Lemma SFcompare_Lt_Gt (x y : spec_float) :
  SFcompare x y = Some Lt -> SFcompare y x = Some Gt.
Proof.
  destruct x as [sx|sx| |sx mx ex], y as [sy|sy| |sy my ey]; simpl;
    try discriminate; try (destruct sx; discriminate || reflexivity);
    try (destruct sy; discriminate || reflexivity);
    try (destruct sx, sy; discriminate || reflexivity).
  pose proof (Pos.compare_cont_antisym mx my Eq) as A; simpl in A.
  destruct sx, sy; try discriminate; try reflexivity;
    rewrite (Z.compare_antisym ex ey);
    destruct (ex ?= ey) eqn:E; simpl; try discriminate; try reflexivity;
    rewrite <- A; destruct (Pos.compare_cont Eq mx my); simpl;
    discriminate || reflexivity.
Qed.

Lemma float_ltb_asym (a b : float) :
  (a <? b)%float = true -> (b <? a)%float = false.
Proof.
  rewrite !ltb_spec. unfold SFltb. intros H.
  destruct (SFcompare (Prim2SF a) (Prim2SF b)) as [[| |]|] eqn:E;
    try discriminate.
  now rewrite (SFcompare_Lt_Gt _ _ E).
Qed.

Lemma SF64sub_diag (x : spec_float) :
  SF64sub x x = S754_nan \/ SF64sub x x = S754_zero false.
Proof.
  destruct x as [s|s| |s m e]; unfold SF64sub, SFsub.
  - destruct s; now right.
  - destruct s; now left.
  - now left.
  - right. rewrite Z.sub_diag. reflexivity.
Qed.

(** A positive duration has not elapsed between an instant and itself. *)
Lemma float_sub_diag_not_ge (h t : float) :
  (0 <? h)%float = true -> (h <=? t - t)%float = false.
Proof.
  rewrite ltb_spec, leb_spec, sub_spec. unfold SFltb, SFleb.
  change (Prim2SF 0) with (S754_zero false).
  destruct (SF64sub_diag (Prim2SF t)) as [-> | ->];
    destruct (Prim2SF h) as [s|s| |s m e]; simpl;
    try reflexivity; try discriminate; destruct s;
    try reflexivity; discriminate.
Qed.

(** ** The access state machine *)

Lemma change_state_last_state self new_state msg :
  last_state (_change_state self new_state msg) = new_state.
Proof.
  unfold _change_state. case_bool_decide as H.
  - destruct msg as [m|]; [case_bool_decide|]; reflexivity.
  - destruct (decide (new_state = last_state self)) as [->|Hne]; [done|].
    by destruct H.
Qed.

Lemma change_state_fields self new_state msg :
  let self' := _change_state self new_state msg in
  cfg self' = cfg self /\ predictions self' = predictions self /\
  last_infer self' = last_infer self /\ mask_start self' = mask_start self /\
  access_granted self' = access_granted self /\ queue self' = queue self.
Proof.
  unfold _change_state. case_bool_decide; [|done].
  destruct msg as [m|]; [case_bool_decide|]; done.
Qed.

Lemma update_access_masked self now hf :
  has_mask (cfg self) (predictions self) = Ok true ->
  has_face (cfg self) (predictions self) = Ok hf ->
  _update_access self now =
  Ok match mask_start self with
     | None => set_mask_start self (Some now)
     | Some t0 =>
         if (hold_time (cfg self) <=? now - t0)%float
         then set_access_granted
                (_change_state self (Some "liberado") (Some "Acesso liberado"))
                true
         else self
     end.
Proof.
  intros Hm Hf. unfold _update_access. rewrite Hm, Hf. simpl.
  destruct (mask_start self); [destruct (_ <=? _)%float|]; reflexivity.
Qed.

Lemma update_access_face self now :
  has_mask (cfg self) (predictions self) = Ok false ->
  has_face (cfg self) (predictions self) = Ok true ->
  _update_access self now =
  Ok (set_access_granted
        (_change_state (set_mask_start self None) (Some "negado")
           (Some "Acesso negado: necessário máscara"))
        false).
Proof. intros Hm Hf. unfold _update_access. rewrite Hm, Hf. reflexivity. Qed.

Lemma update_access_none self now :
  has_mask (cfg self) (predictions self) = Ok false ->
  has_face (cfg self) (predictions self) = Ok false ->
  _update_access self now =
  Ok (_change_state (set_mask_start self None) None None).
Proof. intros Hm Hf. unfold _update_access. rewrite Hm, Hf. reflexivity. Qed.

Lemma tick_masked self t :
  masked (cfg self) t ->
  tick self t =
  Ok (let self1 := set_predictions self (snapshot t) in
      match mask_start self with
      | None => set_mask_start self1 (Some (tick_now t))
      | Some t0 =>
          if (hold_time (cfg self) <=? tick_now t - t0)%float
          then set_access_granted
                 (_change_state self1 (Some "liberado") (Some "Acesso liberado"))
                 true
          else self1
      end).
Proof.
  intros [Hm [hf Hf]]. unfold tick.
  by rewrite (update_access_masked _ _ hf).
Qed.

Lemma tick_face_without_mask self t :
  face_without_mask (cfg self) t ->
  exists self', tick self t = Ok self' /\ cfg self' = cfg self /\
    mask_start self' = None /\ last_state self' = Some "negado" /\
    access_granted self' = false.
Proof.
  intros [Hm Hf]. unfold tick. rewrite update_access_face by done.
  eexists. split; [reflexivity|].
  set (self1 := set_mask_start _ _).
  destruct (change_state_fields self1 (Some "negado")
              (Some "Acesso negado: necessário máscara")) as (?&?&?&?&?&?).
  simpl. by rewrite change_state_last_state.
Qed.

Lemma tick_no_detection self t :
  no_detection (cfg self) t ->
  exists self', tick self t = Ok self' /\ cfg self' = cfg self /\
    mask_start self' = None /\ last_state self' = None /\
    access_granted self' = access_granted self.
Proof.
  intros [Hm Hf]. unfold tick. rewrite update_access_none by done.
  eexists. split; [reflexivity|].
  set (self1 := set_mask_start _ _).
  destruct (change_state_fields self1 None None) as (?&?&?&?&?&?).
  by rewrite change_state_last_state.
Qed.

Ltac solve_masked :=
  split; [vm_compute; reflexivity | eexists; vm_compute; reflexivity].

(** What a tick with a mask in view does to the fields of the machine. *)
Lemma tick_masked_fields self t :
  masked (cfg self) t ->
  exists self', tick self t = Ok self' /\ cfg self' = cfg self /\
    match mask_start self with
    | None =>
        mask_start self' = Some (tick_now t) /\
        last_state self' = last_state self /\
        access_granted self' = access_granted self
    | Some t0 =>
        mask_start self' = Some t0 /\
        if (hold_time (cfg self) <=? tick_now t - t0)%float
        then last_state self' = Some "liberado" /\ access_granted self' = true
        else last_state self' = last_state self /\
             access_granted self' = access_granted self
    end.
Proof.
  intros H. rewrite (tick_masked _ _ H). eexists. split; [reflexivity|].
  simpl. destruct (mask_start self) as [t0|] eqn:E; [|done].
  destruct (_ <=? _)%float; [|done].
  set (self1 := set_predictions _ _).
  destruct (change_state_fields self1 (Some "liberado")
              (Some "Acesso liberado")) as (?&?&?&Hs&?&?).
  simpl. rewrite change_state_last_state. simpl in Hs.
  repeat split; try done. by rewrite Hs.
Qed.

(** C7. On a tick where a face is detected (a label of [FACE_LABELS] with
    confidence at least [conf_threshold]) and no mask is (no label of
    [MASK_LABELS] with confidence at least [mask_conf_threshold]), the hold
    start is reset to [None] and the state becomes ["negado"] (Denied). *)
Theorem face_without_mask_resets_hold_and_denies self now :
  has_mask (cfg self) (predictions self) = Ok false ->
  has_face (cfg self) (predictions self) = Ok true ->
  exists self',
    _update_access self now = Ok self' /\
    mask_start self' = None /\
    last_state self' = Some "negado".
Proof.
  intros Hm Hf. rewrite update_access_face by done.
  eexists. split; [reflexivity|].
  set (self1 := set_mask_start self None).
  destruct (change_state_fields self1 (Some "negado")
              (Some "Acesso negado: necessário máscara")) as (_&_&_&Hs&_).
  simpl. by rewrite change_state_last_state.
Qed.

(** The machine is holding a mask since [10] when a bare face shows up. *)
Lemma face_without_mask_resets_hold_and_denies_witness :
  mask_start (set_mask_start (set_predictions (__init__ sample_cfg)
                                (snapshot (face_at 11))) (Some 10%float))
    = Some 10%float /\
  exists self',
    _update_access
      (set_mask_start (set_predictions (__init__ sample_cfg)
                         (snapshot (face_at 11))) (Some 10%float))
      11 = Ok self' /\
    mask_start self' = None /\
    last_state self' = Some "negado".
Proof.
  split; [reflexivity|].
  apply face_without_mask_resets_hold_and_denies; vm_compute; reflexivity.
Defined.

(** C10. On a tick whose snapshot has neither a qualifying mask nor a
    qualifying face (an empty snapshot, for one), the hold start is reset to
    [None], the state becomes [None] (Idle) and [access_granted] keeps its
    previous value; the face-without-mask branch, unlike it, sets
    [access_granted] to [False]. *)
Theorem no_detection_idles_and_keeps_flag self now :
  (has_mask (cfg self) (predictions self) = Ok false ->
   has_face (cfg self) (predictions self) = Ok false ->
   exists self',
     _update_access self now = Ok self' /\
     mask_start self' = None /\
     last_state self' = None /\
     access_granted self' = access_granted self) /\
  (predictions self = [] ->
   exists self',
     _update_access self now = Ok self' /\
     mask_start self' = None /\
     last_state self' = None /\
     access_granted self' = access_granted self) /\
  (has_mask (cfg self) (predictions self) = Ok false ->
   has_face (cfg self) (predictions self) = Ok true ->
   exists self',
     _update_access self now = Ok self' /\
     access_granted self' = false).
Proof.
  assert (Hidle :
    has_mask (cfg self) (predictions self) = Ok false ->
    has_face (cfg self) (predictions self) = Ok false ->
    exists self',
      _update_access self now = Ok self' /\ mask_start self' = None /\
      last_state self' = None /\ access_granted self' = access_granted self).
  { intros Hm Hf. rewrite update_access_none by done.
    eexists. split; [reflexivity|].
    set (self1 := set_mask_start self None).
    destruct (change_state_fields self1 None None) as (_&_&_&Hs&Hg&_).
    by rewrite change_state_last_state. }
  split; [exact Hidle|]. split.
  - intros E. apply Hidle; by rewrite E.
  - intros Hm Hf. rewrite update_access_face by done.
    eexists. split; reflexivity.
Qed.

(** A granted machine sees an empty snapshot: the flag survives. *)
Lemma no_detection_idles_and_keeps_flag_witness :
  exists self',
    _update_access (set_predictions sample_granted []) 20 = Ok self' /\
    mask_start self' = None /\
    last_state self' = None /\
    access_granted self' = true.
Proof.
  apply (proj1 (proj2 (no_detection_idles_and_keeps_flag
                         (set_predictions sample_granted []) 20))).
  reflexivity.
Defined.

(** A run of ticks, none of which shows a face without a mask, keeps the
    flag; if all of them show a mask, it keeps the state too. *)
Lemma run_ticks_keeps_grant ts : forall self,
  access_granted self = true ->
  Forall (fun t => masked (cfg self) t \/ no_detection (cfg self) t) ts ->
  exists self',
    run_ticks self ts = Ok self' /\
    access_granted self' = true /\
    (last_state self = Some "liberado" ->
     Forall (masked (cfg self)) ts ->
     last_state self' = Some "liberado").
Proof.
  induction ts as [|t ts IH]; intros self Hg Hall.
  - exists self. by split.
  - inversion_clear Hall as [|? ? Ht Hts].
    assert (exists self1, tick self t = Ok self1 /\ cfg self1 = cfg self /\
              access_granted self1 = true /\
              (last_state self = Some "liberado" -> masked (cfg self) t ->
               last_state self1 = Some "liberado"))
      as (self1 & Etick & Ecfg & Hg1 & Hst1).
    { destruct Ht as [Hm | Hn].
      - destruct (tick_masked_fields _ _ Hm) as (self1 & E & Ec & Hf).
        exists self1. split; [done|]. split; [done|].
        destruct (mask_start self) as [t0|].
        + destruct Hf as [_ Hf].
          destruct (_ <=? _)%float; destruct Hf as [Hl Ha]; split;
            try done; congruence.
        + destruct Hf as (_ & Hl & Ha). split; congruence.
      - destruct (tick_no_detection _ _ Hn) as (self1 & E & Ec & _ & _ & Ha).
        exists self1. split; [done|]. split; [done|]. split; [congruence|].
        intros _ [Hm _]. destruct Hn as [Hn _]. congruence. }
    rewrite <- Ecfg in Hts.
    destruct (IH self1 Hg1 Hts) as (self' & Erun & Hg' & Hst').
    exists self'. simpl. rewrite Etick. simpl. split; [done|]. split; [done|].
    intros Hl Hall. inversion_clear Hall as [|? ? Hm Hms].
    apply Hst'; [by apply Hst1 | by rewrite Ecfg].
Qed.

(** C1, as the code has it. Once the state is ["liberado"] (Granted) and
    [access_granted] is set, the flag stays set over every later run of
    ticks none of which shows a face without a mask, and the state stays
    ["liberado"] as long as every tick shows a mask; a tick that shows a
    face without a mask revokes the grant: the state becomes ["negado"] and
    the flag is cleared. *)
Theorem grant_kept_until_face_without_mask self :
  last_state self = Some "liberado" ->
  access_granted self = true ->
  (forall ts,
     Forall (fun t => masked (cfg self) t \/ no_detection (cfg self) t) ts ->
     exists self',
       run_ticks self ts = Ok self' /\
       access_granted self' = true /\
       (Forall (masked (cfg self)) ts -> last_state self' = Some "liberado")) /\
  (forall t,
     face_without_mask (cfg self) t ->
     exists self',
       tick self t = Ok self' /\
       access_granted self' = false /\
       last_state self' = Some "negado").
Proof.
  intros Hl Hg. split.
  - intros ts Hall.
    destruct (run_ticks_keeps_grant ts self Hg Hall) as (self' & E & Hg' & Hs).
    exists self'. split; [done|]. split; [done|]. by apply Hs.
  - intros t Hf.
    destruct (tick_face_without_mask _ _ Hf) as (self' & E & _ & _ & Hs & Ha).
    by exists self'.
Qed.

Lemma grant_kept_until_face_without_mask_witness :
  (exists self',
     run_ticks sample_granted [mask_at 14; nothing_at 15; mask_at 16]
       = Ok self' /\
     access_granted self' = true) /\
  (exists self',
     run_ticks sample_granted [mask_at 14; mask_at 15] = Ok self' /\
     access_granted self' = true /\
     last_state self' = Some "liberado") /\
  (exists self',
     tick sample_granted (face_at 14) = Ok self' /\
     access_granted self' = false /\
     last_state self' = Some "negado").
Proof.
  destruct (grant_kept_until_face_without_mask sample_granted
              eq_refl eq_refl) as [Hkeep Hrevoke].
  split; [|split].
  - destruct (Hkeep [mask_at 14; nothing_at 15; mask_at 16])
      as (self' & E & Hg & _); [|by exists self'].
    constructor; [left; solve_masked|].
    constructor; [right; split; vm_compute; reflexivity|].
    constructor; [left; solve_masked|constructor].
  - destruct (Hkeep [mask_at 14; mask_at 15]) as (self' & E & Hg & Hs).
    + repeat (constructor; [left; solve_masked|]). constructor.
    + exists self'. split; [done|]. split; [done|]. apply Hs.
      repeat (constructor; [solve_masked|]). constructor.
  - apply Hrevoke. split; vm_compute; reflexivity.
Defined.

(** C1 as stated fails: from the initial state two masked ticks three
    seconds apart grant access, and one later tick with a bare face leaves
    the state ["negado"] and the flag cleared. *)
Lemma grant_revoked_by_face_without_mask :
  exists s1 s2,
    run_ticks (__init__ sample_cfg) [mask_at 10; mask_at 13] = Ok s1 /\
    last_state s1 = Some "liberado" /\
    access_granted s1 = true /\
    tick s1 (face_at 13.5) = Ok s2 /\
    last_state s2 = Some "negado" /\
    access_granted s2 = false.
Proof.
  eexists. eexists.
  split; [vm_compute; reflexivity|].
  vm_compute. repeat split; reflexivity.
Qed.

(** While a mask stays in view and the hold time has not elapsed, the
    machine keeps its hold start, its state and its flag. *)
Lemma run_ticks_holding pre : forall self t0,
  mask_start self = Some t0 ->
  Forall (masked (cfg self)) pre ->
  Forall (fun t => (hold_time (cfg self) <=? tick_now t - t0)%float = false)
    pre ->
  exists self',
    run_ticks self pre = Ok self' /\ cfg self' = cfg self /\
    mask_start self' = Some t0 /\
    last_state self' = last_state self /\
    access_granted self' = access_granted self.
Proof.
  induction pre as [|t pre IH]; intros self t0 Hs Hm Hlt.
  - by exists self.
  - inversion_clear Hm as [|? ? Hm1 Hm2].
    inversion_clear Hlt as [|? ? Hlt1 Hlt2].
    destruct (tick_masked_fields _ _ Hm1) as (self1 & E & Ec & Hf).
    rewrite Hs, Hlt1 in Hf. destruct Hf as (Hs1 & Hl1 & Ha1).
    rewrite <- Ec in Hm2, Hlt2.
    destruct (IH self1 t0 Hs1 Hm2 Hlt2) as (self' & E' & Ec' & ? & ? & ?).
    exists self'. simpl. rewrite E. simpl.
    repeat split; congruence.
Qed.

(** C2. Over a run of ticks that all show a mask, started when no hold is
    in progress, the first tick records its clock as the hold start, ticks
    at which the hold time has not elapsed change neither the state nor the
    flag, and the first tick at which [now - mask_start >= hold_time] sets
    the state to ["liberado"] (Granted) and [access_granted] to [True]. The
    hold time is a positive duration, so the recording tick is not that
    tick. *)
Theorem hold_start_recorded_then_granted self t0 pre tk :
  mask_start self = None ->
  (0 <? hold_time (cfg self))%float = true ->
  Forall (masked (cfg self)) (t0 :: pre ++ [tk]) ->
  Forall (fun t =>
            (hold_time (cfg self) <=? tick_now t - tick_now t0)%float = false)
    pre ->
  (hold_time (cfg self) <=? tick_now tk - tick_now t0)%float = true ->
  exists s0 s1 s2,
    tick self t0 = Ok s0 /\
    mask_start s0 = Some (tick_now t0) /\
    last_state s0 = last_state self /\
    access_granted s0 = access_granted self /\
    (hold_time (cfg self) <=? tick_now t0 - tick_now t0)%float = false /\
    run_ticks s0 pre = Ok s1 /\
    mask_start s1 = Some (tick_now t0) /\
    last_state s1 = last_state self /\
    access_granted s1 = access_granted self /\
    tick s1 tk = Ok s2 /\
    last_state s2 = Some "liberado" /\
    access_granted s2 = true /\
    run_ticks self (t0 :: pre ++ [tk]) = Ok s2.
Proof.
  intros Hnone Hpos Hall Hpre Hk.
  inversion_clear Hall as [|? ? Hm0 Hrest].
  apply Forall_app in Hrest as [Hmpre Hmk].
  inversion_clear Hmk as [|? ? Hmk' _].
  destruct (tick_masked_fields _ _ Hm0) as (s0 & E0 & Ec0 & Hf0).
  rewrite Hnone in Hf0. destruct Hf0 as (Hs0 & Hl0 & Ha0).
  rewrite <- Ec0 in Hmpre, Hpre, Hmk', Hk.
  destruct (run_ticks_holding pre s0 (tick_now t0) Hs0 Hmpre Hpre)
    as (s1 & E1 & Ec1 & Hs1 & Hl1 & Ha1).
  rewrite <- Ec1 in Hmk', Hk.
  destruct (tick_masked_fields _ _ Hmk') as (s2 & E2 & Ec2 & Hf2).
  rewrite Hs1, Hk in Hf2. destruct Hf2 as (Hs2 & Hl2 & Ha2).
  exists s0, s1, s2.
  repeat split; try congruence.
  - by apply float_sub_diag_not_ge.
  - simpl. rewrite E0. simpl.
    clear - E1 E2. revert s0 E1. induction pre as [|t pre IH]; intros s0 E1.
    + simpl in *. injection E1 as ->. by rewrite E2.
    + simpl in *. destruct (tick s0 t) as [s0'|]; [|done]. simpl in *.
      by apply IH.
Qed.

(** Default hold time of three seconds, ticks one second apart. *)
Lemma hold_start_recorded_then_granted_witness :
  exists s2,
    run_ticks (__init__ sample_cfg)
      (mask_at 10 :: [mask_at 11; mask_at 12] ++ [mask_at 13]) = Ok s2 /\
    last_state s2 = Some "liberado" /\
    access_granted s2 = true /\
    mask_start s2 = Some 10%float.
Proof.
  destruct (hold_start_recorded_then_granted (__init__ sample_cfg)
              (mask_at 10) [mask_at 11; mask_at 12] (mask_at 13))
    as (s0 & s1 & s2 & _ & _ & _ & _ & _ & _ & _ & _ & _ & _ & Hl & Ha & E).
  - reflexivity.
  - vm_compute; reflexivity.
  - repeat (constructor; [solve_masked|]). constructor.
  - repeat (constructor; [vm_compute; reflexivity|]). constructor.
  - vm_compute; reflexivity.
  - exists s2. split; [exact E|]. split; [exact Hl|]. split; [exact Ha|].
    vm_compute in E. by injection E as <-.
Defined.

(** ** The prediction mapper *)

Lemma well_typedb_sound d : well_typedb d = true -> well_typed d.
Proof.
  unfold well_typedb, well_typed. intros H.
  apply andb_true_iff in H as [Hl Hf]. split.
  - destruct (label d); try discriminate. eauto.
  - intros k v Hk Ek. rewrite forallb_forall in Hf.
    specialize (Hf k). rewrite Ek in Hf.
    destruct (to_float v) as [f|]; [by exists f|].
    discriminate Hf. by apply list_elem_of_In.
Qed.


Section Mapper.

Variables sx sy : float.

Lemma adjust_entry_dict d :
  well_typed d ->
  adjust_entry sx sy (PDict d) = Ok (mapped_entry sx sy d).
Proof.
  intros [[s Hs] Hnum].
  unfold adjust_entry, mapped_entry. cbn [Py.get Py.bind].
  fold (label d). rewrite Hs. cbn [Py.lower Py.bind text].
  unfold getitem, mul_float, num.
  destruct (d !! "x") as [px|] eqn:Ex;
    [destruct (Hnum "x" px) as [x Hx]; [set_solver|done|]|];
  destruct (d !! "y") as [py|] eqn:Ey;
    try (destruct (Hnum "y" py) as [y Hy]; [set_solver|done|]);
  destruct (d !! "width") as [pw|] eqn:Ew;
    try (destruct (Hnum "width" pw) as [w Hw]; [set_solver|done|]);
  destruct (d !! "height") as [ph|] eqn:Eh;
    try (destruct (Hnum "height" ph) as [h Hh]; [set_solver|done|]);
  destruct (d !! "confidence") as [conf|] eqn:Ec;
  cbn [Py.bind]; rewrite ?Hx, ?Hy, ?Hw, ?Hh; reflexivity.
Qed.

Lemma adjust_loop_dicts ds : forall acc,
  Forall well_typed ds ->
  adjust_loop sx sy (PDict <$> ds) acc
  = Ok (acc ++ omap (mapped_entry sx sy) ds).
Proof.
  induction ds as [|d ds IH]; intros acc Hall.
  - simpl. by rewrite app_nil_r.
  - inversion_clear Hall as [|? ? Hd Hds].
    cbn [fmap list_fmap adjust_loop]. rewrite adjust_entry_dict by done.
    cbn [Py.bind]. rewrite IH by done. cbn [omap list_omap].
    destruct (mapped_entry sx sy d); [by rewrite <- app_assoc|done].
Qed.






(** The detections of a list of raw predictions, beside the predictions
    themselves. *)
Lemma mapped_entry_box d :
  well_typed d ->
  box <$> mapped_entry sx sy d = corner_box sx sy <$> centre_box d.
Proof.
  intros [_ Hnum]. unfold mapped_entry, centre_box, num.
  destruct (d !! "x") as [px|] eqn:Ex; [|done].
  destruct (d !! "y") as [py|] eqn:Ey; [|done].
  destruct (d !! "width") as [pw|] eqn:Ew; [|done].
  destruct (d !! "height") as [ph|] eqn:Eh; [|done].
  destruct (d !! "confidence") as [conf|]; [|done].
  destruct (Hnum "x" px) as [x ->]; [set_solver|done|].
  destruct (Hnum "y" py) as [y ->]; [set_solver|done|].
  destruct (Hnum "width" pw) as [w ->]; [set_solver|done|].
  destruct (Hnum "height" ph) as [h ->]; [set_solver|done|].
  reflexivity.
Qed.

Lemma omap_mapped_box ds :
  Forall well_typed ds ->
  box <$> omap (mapped_entry sx sy) ds
  = corner_box sx sy <$> omap centre_box ds.
Proof.
  induction 1 as [|d ds Hd _ IH]; [done|].
  cbn [omap list_omap]. pose proof (mapped_entry_box d Hd) as E.
  destruct (mapped_entry sx sy d), (centre_box d);
    cbn [fmap option_fmap option_map] in E; try discriminate E; [|exact IH].
  injection E as E. cbn [fmap list_fmap]. f_equal; [exact E|exact IH].
Qed.

Lemma mapped_entry_labelled d :
  match mapped_entry sx sy d with
  | Some det => complete d = true /\ labelled_from d det
  | None => complete d = false
  end.
Proof.
  unfold mapped_entry, complete, labelled_from.
  destruct (d !! "x"), (d !! "y"), (d !! "width"), (d !! "height"),
    (d !! "confidence"); try done.
  cbn [d_conf d_class]. unfold label.
  repeat split; [by intros c ->|by intros n -> ->|by intros -> ->].
Qed.

Lemma omap_mapped_labelled ds :
  Forall2 labelled_from (List.filter complete ds)
    (omap (mapped_entry sx sy) ds).
Proof.
  induction ds as [|d ds IH]; [constructor|].
  cbn [List.filter omap list_omap].
  pose proof (mapped_entry_labelled d) as E.
  destruct (mapped_entry sx sy d) as [det|].
  - destruct E as [-> E]. by constructor.
  - by rewrite E.
Qed.

End Mapper.

Lemma adjust_dicts self ds h w sx sy :
  int_truediv w (resize_dim (cfg self)).1 = Ok sx ->
  int_truediv h (resize_dim (cfg self)).2 = Ok sy ->
  Forall well_typed ds ->
  _adjust self (PList (PDict <$> ds)) (h, w)
  = Ok (set_predictions self (omap (mapped_entry sx sy) ds)).
Proof.
  intros Hsx Hsy Hall. unfold _adjust. rewrite Hsx, Hsy.
  cbn [Py.bind Py.iter]. by rewrite adjust_loop_dicts.
Qed.

Lemma int_truediv_quotient a b q :
  int_truediv a b = Ok q -> q = (float_of_Z a / float_of_Z b)%float.
Proof.
  unfold int_truediv, float_of_int. destruct (b =? 0); [done|].
  destruct (is_infinity (float_of_Z a)); [done|].
  destruct (is_infinity (float_of_Z b)); [done|].
  simpl. congruence.
Qed.

(** C3. [_adjust] converts each raw box. With [sx = w/iw] and
    [sy = h/ih], where [(iw, ih) = resize_dim] and the frame is [w] by [h]
    pixels, the boxes of the detections it publishes are, in order, the
    boxes [(x*sx - width*sx/2, y*sy - height*sy/2, width*sx, height*sy)] of
    the centre-based raw boxes [(x, y, width, height)] it was given; and
    the raw result [{x: 64, y: 48, width: 40, height: 30}] at 128 by 96,
    for a frame of 512 by 384, is published as [(176, 132, 160, 120)]. *)
Theorem adjust_maps_centre_box_to_corner_box :
  (forall self ds h w sx sy,
     int_truediv w (resize_dim (cfg self)).1 = Ok sx ->
     int_truediv h (resize_dim (cfg self)).2 = Ok sy ->
     Forall well_typed ds ->
     sx = (float_of_Z w / float_of_Z (resize_dim (cfg self)).1)%float /\
     sy = (float_of_Z h / float_of_Z (resize_dim (cfg self)).2)%float /\
     exists self',
       _adjust self (PList (PDict <$> ds)) (h, w) = Ok self' /\
       box <$> predictions self' = corner_box sx sy <$> omap centre_box ds) /\
  (centre_box scenario2_prediction = Some (64, 48, 40, 30)%float /\
   exists self',
     _adjust (__init__ sample_cfg) (PList [PDict scenario2_prediction])
       (384, 512) = Ok self' /\
     box <$> predictions self' = [(176, 132, 160, 120)%float]).
Proof.
  split.
  - intros self ds h w sx sy Hsx Hsy Hall.
    split; [by apply int_truediv_quotient|].
    split; [by apply int_truediv_quotient|].
    eexists. split; [by apply adjust_dicts|].
    cbn [predictions set_predictions]. by apply omap_mapped_box.
  - split; [vm_compute; reflexivity|].
    eexists. split; vm_compute; reflexivity.
Qed.

(** Three raw predictions, one of them without a box: two boxes are
    published, each four times as large as the raw one. *)
Lemma adjust_maps_centre_box_to_corner_box_witness :
  exists self',
    _adjust (__init__ sample_cfg)
      (PList (PDict <$> [ scenario2_prediction; boxless_prediction;
                          named_prediction ]))
      (384, 512) = Ok self' /\
    box <$> predictions self'
    = [ (176, 132, 160, 120)%float; (96, 72, 64, 48)%float ].
Proof.
  destruct (proj1 adjust_maps_centre_box_to_corner_box
              (__init__ sample_cfg)
              [ scenario2_prediction; boxless_prediction; named_prediction ]
              384 512 4%float 4%float) as (_ & _ & self' & E & Hb).
  - vm_compute; reflexivity.
  - vm_compute; reflexivity.
  - repeat (apply Forall_cons; split;
            [apply well_typedb_sound; vm_compute; reflexivity|]).
    apply Forall_nil_2.
  - exists self'. split; [exact E|]. rewrite Hb. vm_compute; reflexivity.
Defined.

(** C8 as stated fails, three times. A prediction with a complete box and
    no label under [class] or [name] is not dropped: it is mapped with the
    empty label. A prediction whose [x] is a string is not dropped either:
    the [TypeError] it raises is not caught in [_adjust], so the
    well-formed prediction that comes with it gets no detection, and
    [_infer] leaves the published list as it was. And an integer too large
    for a float does the same with an [OverflowError]. *)
Lemma unlabelled_kept_and_mistyped_raises :
  (unlabelled_prediction !! "class" = None /\
   unlabelled_prediction !! "name" = None /\
   exists self',
     _adjust (__init__ sample_cfg) (PList [PDict unlabelled_prediction])
       (384, 512) = Ok self' /\
     predictions self'
     = [ {| d_x := 176; d_y := 132; d_w := 160; d_h := 120;
            d_conf := PFloat 0.8; d_class := "" |} ]) /\
  (_adjust (__init__ sample_cfg)
     (PList [PDict scenario2_prediction; PDict mistyped_prediction])
     (384, 512)
   = Raise TypeError /\
   _infer (__init__ sample_cfg) sample_frame (Ok true)
     (response (PDict {[ "predictions" :=
        PList [PDict scenario2_prediction; PDict mistyped_prediction] ]}))
     100
   = Ok (__init__ sample_cfg)) /\
  _adjust (__init__ sample_cfg)
    (PList [PDict scenario2_prediction; PDict oversized_prediction])
    (384, 512)
  = Raise OverflowError.
Proof.
  split; [|split; [split|]]; try (vm_compute; reflexivity).
  split; [reflexivity|]. split; [reflexivity|].
  eexists. split; vm_compute; reflexivity.
Qed.

(** C8, as the code has it. For a list of raw predictions that are objects
    whose label is a string and whose box fields are numbers a float
    holds, [_adjust] returns and publishes, in order, one detection for
    exactly the predictions that have the five fields [x], [y], [width],
    [height], [confidence]; the others are dropped without an error. Each
    detection carries the confidence of its prediction and, as its class,
    the label in lower case (for a label that is ASCII text), the label
    being the field [class], else the field [name], else the empty
    string. *)
Theorem adjust_keeps_exactly_the_complete_boxes self ds h w sx sy :
  int_truediv w (resize_dim (cfg self)).1 = Ok sx ->
  int_truediv h (resize_dim (cfg self)).2 = Ok sy ->
  Forall well_typed ds ->
  exists self',
    _adjust self (PList (PDict <$> ds)) (h, w) = Ok self' /\
    Forall2 labelled_from (List.filter complete ds) (predictions self').
Proof.
  intros Hsx Hsy Hall. eexists. split; [by apply adjust_dicts|].
  cbn [predictions set_predictions]. apply omap_mapped_labelled.
Qed.

(** Four raw predictions: the two without a box are dropped, the label is
    read from [name] and lower-cased. *)
Lemma adjust_keeps_exactly_the_complete_boxes_witness :
  exists self',
    _adjust (__init__ sample_cfg)
      (PList (PDict <$> [ scenario2_prediction; boxless_prediction;
                          named_prediction; ∅ ]))
      (384, 512) = Ok self' /\
    d_class <$> predictions self' = ["face-mask"; "face-mask"] /\
    d_conf <$> predictions self' = [PFloat 0.8; PFloat 0.5].
Proof.
  destruct (adjust_keeps_exactly_the_complete_boxes (__init__ sample_cfg)
              [ scenario2_prediction; boxless_prediction; named_prediction; ∅ ]
              384 512 4%float 4%float) as (self' & E & H).
  - vm_compute; reflexivity.
  - vm_compute; reflexivity.
  - repeat (apply Forall_cons; split;
            [apply well_typedb_sound; vm_compute; reflexivity|]).
    apply Forall_nil_2.
  - exists self'. split; [exact E|].
    cbn [List.filter] in H.
    replace (complete scenario2_prediction) with true in H
      by (vm_compute; reflexivity).
    replace (complete boxless_prediction) with false in H
      by (vm_compute; reflexivity).
    replace (complete named_prediction) with true in H
      by (vm_compute; reflexivity).
    replace (complete ∅) with false in H by (vm_compute; reflexivity).
    apply Forall2_cons_inv_l in H as (det1 & k1 & L1 & H & ->).
    apply Forall2_cons_inv_l in H as (det2 & k2 & L2 & H & ->).
    apply Forall2_nil_inv_l in H as ->.
    destruct L1 as (C1 & K1 & _ & _). destruct L2 as (C2 & _ & K2 & _).
    cbn [fmap list_fmap]. split.
    + rewrite (K1 "face-mask"), (K2 "Face-Mask"); try reflexivity;
        repeat (constructor; [vm_compute; lia|]); constructor.
    + assert (scenario2_prediction !! "confidence" = Some (PFloat 0.8))
        as E1 by (vm_compute; reflexivity).
      assert (named_prediction !! "confidence" = Some (PFloat 0.5))
        as E2 by (vm_compute; reflexivity).
      congruence.
Defined.

(** ** The inference worker *)

(** [_infer] either leaves the system as it was or publishes a list of
    detections together with the clock. *)
Lemma infer_try_publishes self frame post now self' :
  infer_try self frame post now = Ok self' ->
  exists adjusted,
    self' = set_last_infer (set_predictions self adjusted) now.
Proof.
  unfold infer_try, _adjust.
  destruct post as [resp|e]; cbn [Py.bind]; [|done].
  destruct (raise_for_status resp); cbn [Py.bind]; [|done].
  destruct (json resp) as [js|]; cbn [Py.bind]; [|done].
  destruct (Py.get js "predictions" (PList [])) as [data|]; cbn [Py.bind];
    [|done].
  destruct (int_truediv _ _) as [sx|]; cbn [Py.bind]; [|done].
  destruct (int_truediv _ _) as [sy|]; cbn [Py.bind]; [|done].
  destruct (Py.iter data) as [ps|]; cbn [Py.bind]; [|done].
  destruct (adjust_loop sx sy ps []) as [adjusted|]; cbn [Py.bind]; [|done].
  intros [= <-]. by exists adjusted.
Qed.

Lemma infer_cases self frame ok post now :
  _infer self frame (Ok ok) post now = Ok self \/
  exists adjusted,
    infer_try self frame post now
    = Ok (set_last_infer (set_predictions self adjusted) now) /\
    _infer self frame (Ok ok) post now
    = Ok (set_last_infer (set_predictions self adjusted) now).
Proof.
  unfold _infer. cbn [Py.bind]. destruct ok; cbn [negb]; [|by left].
  destruct (infer_try self frame post now) as [self'|e] eqn:E; [|by left].
  destruct (infer_try_publishes _ _ _ _ _ E) as [adjusted ->].
  right. by exists adjusted.
Qed.







(** ** The frame hand-off *)

Lemma enqueue_fields self frame now self' :
  _enqueue self frame now = Some self' ->
  last_infer self' = last_infer self /\ cfg self' = cfg self /\
  predictions self' = predictions self.
Proof.
  unfold _enqueue. destruct (_ && _); [|by intros [= <-]].
  destruct (Queue_put _ _) as [q|]; [|done]. by intros [= <-].
Qed.

Lemma enqueue_pending self frame now :
  Queue_empty (queue self) = false -> _enqueue self frame now = Some self.
Proof. intros E. unfold _enqueue. by rewrite E. Qed.

Lemma enqueue_never_blocks self frame now :
  maxsize (queue self) = 1%nat ->
  (length (items (queue self)) <= 1)%nat ->
  exists self',
    _enqueue self frame now = Some self' /\
    maxsize (queue self') = 1%nat /\
    (length (items (queue self')) <= 1)%nat.
Proof.
  intros Hmax Hlen. unfold _enqueue, Queue_empty, Queue_put, Queue_full.
  destruct (items (queue self)) as [|f r] eqn:Ei; cbn [andb].
  - destruct (_ <? _)%float.
    + rewrite Hmax. simpl. eexists. split; [reflexivity|]. simpl. auto.
    + exists self. rewrite Ei. auto.
  - exists self. rewrite Ei. auto.
Qed.

Lemma step_single_slot w e w' :
  single_slot w -> step w e = Some w' -> single_slot w'.
Proof.
  intros [Hmax Hlen] Hstep. unfold single_slot.
  destruct e as [frame now|encoded now|post now]; cbn [step] in Hstep.
  - destruct (enqueue_never_blocks (sys w) frame now Hmax Hlen)
      as (self' & E & Hm & Hl).
    rewrite E in Hstep. by injection Hstep as <-.
  - destruct (worker_alive w); [|done].
    destruct (in_flight w); [done|]. unfold Queue_get in Hstep.
    destruct (items (queue (sys w))) as [|f r] eqn:Ei; [done|].
    simpl in Hlen.
    destruct encoded as [[]|]; injection Hstep as <-; simpl; split; auto; lia.
  - destruct (in_flight w) as [frame|]; [|done].
    destruct (infer_cases (sys w) frame true post now)
      as [E|(adjusted & _ & E)]; rewrite E in Hstep;
      injection Hstep as <-; by simpl.
Qed.

Lemma run_single_slot es : forall w w',
  single_slot w -> run w es = Some w' -> single_slot w'.
Proof.
  induction es as [|e es IH]; intros w w' Hw Hrun; cbn [run] in Hrun.
  - by injection Hrun as <-.
  - destruct (step w e) as [w1|] eqn:E; [|done].
    eapply IH; [|done]. by eapply step_single_slot.
Qed.

(** C6. However the capture loop and the worker interleave, the hand-off
    holds at most one pending frame; a submission never blocks the caller
    and posts no request; and a submission made while a frame is pending
    changes nothing at all: the pending frame stays, the new one is
    dropped. *)
Theorem handoff_holds_one_frame_and_drops_the_rest c es w :
  run (World_init c) es = Some w ->
  (length (items (queue (sys w))) <= 1)%nat /\
  (forall frame now,
     exists w', step w (Submit frame now) = Some w' /\
                calls w' = calls w /\ in_flight w' = in_flight w /\
                (length (items (queue (sys w'))) <= 1)%nat) /\
  (forall frame now,
     Queue_empty (queue (sys w)) = false ->
     step w (Submit frame now) = Some w).
Proof.
  intros Hrun.
  assert (single_slot w) as [Hmax Hlen].
  { eapply run_single_slot; [|exact Hrun]. split; simpl; lia. }
  split; [done|]. split.
  - intros frame now. cbn [step].
    destruct (enqueue_never_blocks (sys w) frame now Hmax Hlen)
      as (self' & -> & _ & Hl).
    eexists. by split.
  - intros frame now Hpending. cbn [step].
    rewrite enqueue_pending by done. by destruct w.
Qed.

(** A frame is pending when a second one is submitted. *)
Lemma handoff_holds_one_frame_and_drops_the_rest_witness :
  exists w,
    run (World_init sample_cfg) [Submit sample_frame 100] = Some w /\
    items (queue (sys w)) = [sample_frame] /\
    step w (Submit sample_frame 100.5) = Some w.
Proof.
  eexists. split; [vm_compute; reflexivity|]. split; [reflexivity|].
  refine (proj2 (proj2 (handoff_holds_one_frame_and_drops_the_rest
                          sample_cfg [Submit sample_frame 100] _ _)) _ _ _);
    vm_compute; reflexivity.
Defined.

(** C5 as stated fails: a frame submitted while a request is in flight is
    posted as soon as that request completes, here 0.05 s after the
    previous request, under an interval of 0.1 s. *)
Lemma requests_closer_than_interval :
  exists w,
    chronological
      [ Submit sample_frame 100; WorkerGet (Ok true) 100;
        Submit sample_frame 100.01;
        WorkerDone (response no_predictions) 100.05; WorkerGet (Ok true) 100.05 ]
      = true /\
    run (World_init sample_cfg)
      [ Submit sample_frame 100; WorkerGet (Ok true) 100;
        Submit sample_frame 100.01;
        WorkerDone (response no_predictions) 100.05; WorkerGet (Ok true) 100.05 ]
      = Some w /\
    calls w = [100; 100.05]%float /\
    (100.05 - 100 <? infer_interval sample_cfg)%float = true /\
    spaced (infer_interval sample_cfg) (calls w) = false.
Proof.
  eexists. split; [vm_compute; reflexivity|].
  split; [vm_compute; reflexivity|].
  repeat split; vm_compute; reflexivity.
Qed.

(** C5, as the code has it. A submission is a no-op whenever less than
    [infer_interval] seconds (or exactly that many) separate it from
    [last_infer], whatever the slot holds; and [last_infer] is the instant
    at which the last successful inference call completed: no other event
    changes it. *)
Theorem submit_throttled_since_last_success w :
  (forall frame now,
     (now - last_infer (sys w) <? infer_interval (cfg (sys w)))%float = true ->
     step w (Submit frame now) = Some w) /\
  (forall frame now,
     (infer_interval (cfg (sys w)) <? now - last_infer (sys w))%float = false ->
     step w (Submit frame now) = Some w) /\
  (forall e w',
     step w e = Some w' ->
     last_infer (sys w') = last_infer (sys w) \/
     exists post frame,
       e = WorkerDone post (event_time e) /\
       in_flight w = Some frame /\
       infer_try (sys w) frame post (event_time e) = Ok (sys w') /\
       last_infer (sys w') = event_time e).
Proof.
  assert (Hguard : forall frame now,
    (infer_interval (cfg (sys w)) <? now - last_infer (sys w))%float = false ->
    step w (Submit frame now) = Some w).
  { intros frame now H. cbn [step]. unfold _enqueue. rewrite H.
    rewrite andb_false_r. by destruct w. }
  split; [|split; [exact Hguard|]].
  - intros frame now H. apply Hguard. by apply float_ltb_asym.
  - intros e w' Hstep.
    destruct e as [frame now|encoded now|post now]; cbn [step] in Hstep.
    + left. destruct (_enqueue (sys w) frame now) as [self'|] eqn:E; [|done].
      injection Hstep as <-. by apply enqueue_fields in E as [? _].
    + left. destruct (worker_alive w); [|done].
      destruct (in_flight w); [done|].
      destruct (Queue_get _) as [[f q]|]; [|done].
      destruct encoded as [[]|]; injection Hstep as <-; reflexivity.
    + destruct (in_flight w) as [frame|] eqn:Ef; [|done].
      destruct (infer_cases (sys w) frame true post now)
        as [E|(adjusted & Etry & E)]; rewrite E in Hstep;
        injection Hstep as <-; [by left|].
      right. exists post, frame. by repeat split.
Qed.

(** A call completed at 100.05; a frame arrives 0.03 s later. *)
Lemma submit_throttled_since_last_success_witness :
  step {| sys := set_last_infer (__init__ sample_cfg) 100.05;
          in_flight := None; calls := [100%float]; worker_alive := true |}
       (Submit sample_frame 100.08)
  = Some {| sys := set_last_infer (__init__ sample_cfg) 100.05;
            in_flight := None; calls := [100%float];
            worker_alive := true |}.
Proof.
  apply (proj1 (submit_throttled_since_last_success _)).
  vm_compute; reflexivity.
Defined.

(** ** The credential loop *)

Import ProjetoCamera.

(** An effect whose constructor or text differs from all those of a list is
    not in the list. *)
Ltac absent_effect H :=
  repeat (apply elem_of_cons in H as [H|H];
          [solve [discriminate H | vm_compute in H; discriminate H]|]);
  by apply elem_of_nil in H.

(** C9 as stated fails for the empty identifier. The line [TAG:] is a
    credential read: [ler_tag] returns the empty string for it, which the
    table does not hold; the iteration of [main] takes it for no read at
    all, sleeps, and writes no denial. *)
Lemma empty_tag_gets_no_denial :
  ler_tag (Some ("TAG:" +:+ nl)) = Some "" /\
  tag_autorizada {[ "04A1B2" := "Ana" ]} "" = None /\
  forall granted,
    main_iteration {[ "04A1B2" := "Ana" ]} (Some "") granted = [Sleep 0.1] /\
    (SerialWrite ("ACESSO:NEGADO" +:+ nl)
       ∉ main_iteration {[ "04A1B2" := "Ana" ]} (Some "") granted).
Proof.
  split; [vm_compute; reflexivity|]. split; [vm_compute; reflexivity|].
  intros granted. split; [reflexivity|].
  cbn [main_iteration]. intros H. absent_effect H.
Qed.

(** C9, as the code has it. For a tag that is not empty and that the table
    does not hold, the iteration of [main] writes the line [ACESSO:NEGADO]
    to the actuator, writes no [ACESSO:OK], and neither constructs a
    [MaskAccessSystem] nor starts its thread: it prints, logs the tag,
    writes the denial and sleeps. *)
Theorem unregistered_tag_denied_without_detection db tag granted :
  tag <> "" ->
  tag_autorizada db tag = None ->
  (SerialWrite ("ACESSO:NEGADO" +:+ nl) ∈ main_iteration db (Some tag) granted) /\
  (SerialWrite ("ACESSO:OK" +:+ nl) ∉ main_iteration db (Some tag) granted) /\
  (StartThread ∉ main_iteration db (Some tag) granted) /\
  (forall c, NewDetector c ∉ main_iteration db (Some tag) granted) /\
  main_iteration db (Some tag) granted
  = [ Print ("TAG detectada: " +:+ tag); Print "TAG não cadastrada.";
      LogTagErro tag; SerialWrite ("ACESSO:NEGADO" +:+ nl); Sleep 1 ].
Proof.
  intros Htag Hdb.
  assert (main_iteration db (Some tag) granted
          = [ Print ("TAG detectada: " +:+ tag); Print "TAG não cadastrada.";
              LogTagErro tag; SerialWrite ("ACESSO:NEGADO" +:+ nl);
              Sleep 1 ]) as ->.
  { unfold main_iteration. destruct tag as [|a tag]; [done|]. by rewrite Hdb. }
  split; [|split; [|split; [|split]]].
  - do 3 apply list_elem_of_further. apply list_elem_of_here.
  - intros H. absent_effect H.
  - intros H. absent_effect H.
  - intros c H. absent_effect H.
  - reflexivity.
Qed.

(** The table holds one tag; another one is read. *)
Lemma unregistered_tag_denied_without_detection_witness :
  (SerialWrite ("ACESSO:NEGADO" +:+ nl)
     ∈ main_iteration {[ "04A1B2" := "Ana" ]} (Some "FFEE01") true) /\
  (StartThread ∉ main_iteration {[ "04A1B2" := "Ana" ]} (Some "FFEE01") true).
Proof.
  destruct (unregistered_tag_denied_without_detection
              {[ "04A1B2" := "Ana" ]} "FFEE01" true) as (H1 & _ & H2 & _).
  - discriminate.
  - vm_compute; reflexivity.
  - by split.
Defined.

(** ** Further properties of the access state machine *)

(** What one tick can do to the hold start and to the flag. *)
Lemma tick_outcome self t self' :
  tick self t = Ok self' ->
  cfg self' = cfg self /\
  (mask_seen (cfg self) t /\
   match mask_start self with
   | None => mask_start self' = Some (tick_now t) /\
             access_granted self' = access_granted self
   | Some t0 => mask_start self' = Some t0 /\
       (access_granted self' = access_granted self \/
        (hold_time (cfg self) <=? tick_now t - t0)%float = true)
   end
   \/
   mask_start self' = None /\
   (access_granted self' = access_granted self \/
    access_granted self' = false)).
Proof.
  unfold tick, _update_access, mask_seen. cbn [predictions set_predictions cfg].
  destruct (has_mask (cfg self) (snapshot t)) as [[]|] eqn:Hm;
    cbn [Py.bind]; [| |done];
    destruct (has_face (cfg self) (snapshot t)) as [[]|] eqn:Hf;
    cbn [Py.bind]; try done.
  all: try (destruct (mask_start self) as [t0|] eqn:Es;
            cbn [mask_start set_predictions]; rewrite ?Es;
            [destruct (_ <=? _)%float eqn:El|]; intros [= <-]).
  all: try (intros [= <-]).
  all: repeat match goal with
       | |- context [_change_state ?s ?n ?m] =>
           let H := fresh in
           pose proof (change_state_fields s n m) as H; cbn zeta in H;
           destruct H as (?&?&?&?&?&?);
           generalize dependent (_change_state s n m); intros
       end; cbn in *; split; try congruence.
  all: try (left; split; [done|]; rewrite ?Es; split; [congruence|]; auto; fail).
  all: try (left; split; [done|]; split; [congruence|]; auto; fail).
  all: try (right; split; [congruence|]; auto; fail).
Qed.

Lemma hold_witnessed_more c h ts :
  hold_witnessed c h -> hold_witnessed c (h ++ ts).
Proof.
  intros (pre & t0 & mid & tk & post & -> & Hm & Hl).
  exists pre, t0, mid, tk, (post ++ ts). split; [|done].
  by rewrite <- !app_assoc, <- !app_comm_cons, <- app_assoc.
Qed.

Lemma hold_running_more c h t start :
  hold_running c h start -> mask_seen c t -> hold_running c (h ++ [t]) start.
Proof.
  intros (pre & t0 & mid & -> & Hs & Hm) Ht.
  exists pre, t0, (mid ++ [t]). split; [by rewrite <- app_assoc|].
  split; [done|]. rewrite app_comm_cons. apply Forall_app.
  split; [done|]. by repeat constructor.
Qed.

(** Along a run, a hold start always points back into an unbroken stretch
    of masked ticks, and a set flag to a stretch that lasted the hold time. *)
Lemma run_ticks_hold_invariant ts : forall h self self',
  (forall start, mask_start self = Some start ->
     hold_running (cfg self) h start) ->
  (access_granted self = true -> hold_witnessed (cfg self) h) ->
  run_ticks self ts = Ok self' ->
  cfg self' = cfg self /\
  (forall start, mask_start self' = Some start ->
     hold_running (cfg self) (h ++ ts) start) /\
  (access_granted self' = true -> hold_witnessed (cfg self) (h ++ ts)).
Proof.
  induction ts as [|t ts IH]; intros h self self' Hrun Hgr E;
    cbn [run_ticks] in E.
  - injection E as <-. by rewrite app_nil_r.
  - destruct (tick self t) as [self1|] eqn:Et; [|done]. cbn [Py.bind] in E.
    destruct (tick_outcome _ _ _ Et) as [Ec Hout].
    replace (h ++ t :: ts) with ((h ++ [t]) ++ ts) by by rewrite <- app_assoc.
    rewrite <- Ec.
    destruct (IH (h ++ [t]) self1 self') as (Ec' & Hr' & Hg'); [| |done|].
    + rewrite Ec. intros start Es1.
      destruct Hout as [[Hm Hcase]|[Hnone _]]; [|congruence].
      destruct (mask_start self) as [t0|] eqn:Es.
      * destruct Hcase as [Es' _]. rewrite Es' in Es1. injection Es1 as <-.
        apply hold_running_more; auto.
      * destruct Hcase as [Es' _]. rewrite Es' in Es1. injection Es1 as <-.
        exists h, t, []. split; [done|]. split; [done|]. by repeat constructor.
    + rewrite Ec. intros Hg1.
      destruct Hout as [[Hm Hcase]|[_ [Hsame|Hfalse]]]; [| |congruence].
      * destruct (mask_start self) as [t0|] eqn:Es.
        -- destruct Hcase as [_ [Hsame|Hl]].
           ++ apply hold_witnessed_more, Hgr. congruence.
           ++ destruct (Hrun t0 eq_refl) as (pre & t1 & mid & -> & Ht1 & Hms).
              exists pre, t1, mid, t, []. split; [by rewrite <- app_assoc|].
              split; [|by rewrite Ht1].
              rewrite app_comm_cons. apply Forall_app.
              split; [done|]. by repeat constructor.
        -- destruct Hcase as [_ Hsame].
           apply hold_witnessed_more, Hgr. congruence.
      * apply hold_witnessed_more, Hgr. congruence.
    + split; [congruence|]. by split.
Qed.

(** X1. Access is never granted without a full hold: if a run of ticks
    that starts with no hold in progress and the flag clear ends with
    [access_granted] set, then the run contains a stretch of consecutive
    ticks that all show a mask and whose first and last clocks are at least
    [hold_time] apart. *)
Theorem grant_needs_a_full_hold self ts self' :
  mask_start self = None ->
  access_granted self = false ->
  run_ticks self ts = Ok self' ->
  access_granted self' = true ->
  hold_witnessed (cfg self) ts.
Proof.
  intros Hs Hg E Hg'.
  destruct (run_ticks_hold_invariant ts [] self self') as (_ & _ & H);
    try done.
  - intros start. by rewrite Hs.
  - by rewrite Hg.
  - by apply H.
Qed.

(** A face interrupts a first hold; the grant comes from the second one. *)
Lemma grant_needs_a_full_hold_witness :
  hold_witnessed sample_cfg
    [mask_at 10; mask_at 12; face_at 12.5; mask_at 13; mask_at 14.5;
     mask_at 16].
Proof.
  refine (grant_needs_a_full_hold (__init__ sample_cfg) _
            (set_predictions
               (set_access_granted
                  (log_info
                     (log_info
                        (set_last_state
                           (set_mask_start (__init__ sample_cfg)
                              (Some 13%float))
                           (Some "liberado"))
                        "Acesso negado: necessário máscara")
                     "Acesso liberado")
                  true)
               (snapshot (mask_at 16)))
            eq_refl eq_refl _ eq_refl).
  vm_compute. reflexivity.
Defined.

Lemma change_state_log self new_state msg :
  log (_change_state self new_state msg)
  = if bool_decide (new_state ≠ last_state self)
    then match msg with
         | Some m => if bool_decide (m = "") then log self else log self ++ [m]
         | None => log self
         end
    else log self.
Proof.
  unfold _change_state. case_bool_decide; [|done].
  destruct msg as [m|]; [case_bool_decide|]; done.
Qed.

(** X2. Logging is edge-triggered. A tick appends at most one message to
    the log; it appends none when the state it leaves is the state it found
    or is [None] (Idle); and when the state changes to ["liberado"] or to
    ["negado"] it appends exactly the message of that state. *)
Theorem tick_logs_only_state_changes self t self' :
  tick self t = Ok self' ->
  (last_state self' = last_state self -> log self' = log self) /\
  (last_state self' = None -> log self' = log self) /\
  (last_state self' <> last_state self ->
   last_state self' = Some "liberado" ->
   log self' = log self ++ ["Acesso liberado"]) /\
  (last_state self' <> last_state self ->
   last_state self' = Some "negado" ->
   log self' = log self ++ ["Acesso negado: necessário máscara"]).
Proof.
  unfold tick, _update_access. cbn [predictions set_predictions cfg].
  destruct (has_mask (cfg self) (snapshot t)) as [[]|]; cbn [Py.bind];
    [| |done];
    destruct (has_face (cfg self) (snapshot t)) as [[]|]; cbn [Py.bind];
    try done.
  all: try (destruct (mask_start (set_predictions self (snapshot t)));
            [destruct (_ <=? _)%float|]).
  all: intros [= <-]; cbn [log last_state set_access_granted set_mask_start
                           set_predictions];
       rewrite ?change_state_last_state, ?change_state_log;
       cbn [log last_state set_access_granted set_mask_start set_predictions];
       repeat case_bool_decide; repeat split; intros; simplify_eq; done.
Qed.

(** The same bare face on two ticks running: one message, not two. *)
Lemma tick_logs_only_state_changes_witness :
  exists s1 s2,
    tick (__init__ sample_cfg) (face_at 10) = Ok s1 /\
    log s1 = ["Acesso negado: necessário máscara"] /\
    tick s1 (face_at 10.5) = Ok s2 /\
    log s2 = log s1.
Proof.
  eexists. eexists. split; [vm_compute; reflexivity|].
  split; [reflexivity|]. split; [vm_compute; reflexivity|].
  refine (proj1 (tick_logs_only_state_changes _ (face_at 10.5) _ _) _);
    vm_compute; reflexivity.
Defined.

Lemma update_access_keeps self now self' :
  _update_access self now = Ok self' ->
  predictions self' = predictions self /\
  last_infer self' = last_infer self /\ queue self' = queue self /\
  cfg self' = cfg self /\ running self' = running self.
Proof.
  unfold _update_access.
  destruct (has_mask _ _) as [[]|]; cbn [Py.bind]; [| |done];
    destruct (has_face _ _) as [[]|]; cbn [Py.bind]; try done.
  all: try (destruct (mask_start self); [destruct (_ <=? _)%float|]).
  all: intros [= <-]; unfold _change_state;
       repeat case_bool_decide; done.
Qed.

Lemma enqueue_keeps self frame now self' :
  _enqueue self frame now = Some self' ->
  cfg self' = cfg self /\ running self' = running self.
Proof.
  unfold _enqueue. destruct (_ && _); [|by intros [= <-]].
  destruct (Queue_put _ _) as [q|]; [|done]. by intros [= <-].
Qed.

(** X3. Each task writes its own fields. [_update_access] leaves the
    published detections, [last_infer], the queue, the configuration and
    [running] alone; [_infer] leaves the state, the hold start, the flag,
    the queue, the log, the configuration and [running] alone; [_enqueue]
    changes nothing but the queue. *)
Theorem tasks_write_their_own_fields self :
  (forall now self',
     _update_access self now = Ok self' ->
     predictions self' = predictions self /\
     last_infer self' = last_infer self /\ queue self' = queue self /\
     cfg self' = cfg self /\ running self' = running self) /\
  (forall frame encoded post now self',
     _infer self frame encoded post now = Ok self' ->
     last_state self' = last_state self /\
     mask_start self' = mask_start self /\
     access_granted self' = access_granted self /\
     queue self' = queue self /\ log self' = log self /\
     cfg self' = cfg self /\ running self' = running self) /\
  (forall frame now self',
     _enqueue self frame now = Some self' ->
     exists q, self' = set_queue self q).
Proof.
  split; [|split].
  - intros now self'. apply update_access_keeps.
  - intros frame [ok|e] post now self' E; [|done].
    destruct (infer_cases self frame ok post now)
      as [E'|(adjusted & _ & E')]; rewrite E' in E; by injection E as <-.
  - intros frame now self'. unfold _enqueue.
    destruct (_ && _).
    + destruct (Queue_put _ _) as [q|]; [|done]. intros [= <-]. by exists q.
    + intros [= <-]. exists (queue self). by destruct self.
Qed.

(** A successful inference cycle on a granted system keeps the grant. *)
Lemma tasks_write_their_own_fields_witness :
  exists self',
    _infer sample_granted sample_frame (Ok true) (response no_predictions) 100
      = Ok self' /\
    last_state self' = Some "liberado" /\
    access_granted self' = true.
Proof.
  destruct (_infer sample_granted sample_frame (Ok true) (response no_predictions)
              100) as [self'|] eqn:E; [|by vm_compute in E].
  exists self'. split; [reflexivity|].
  destruct (proj1 (proj2 (tasks_write_their_own_fields sample_granted))
              _ _ _ _ _ E) as (Hl & _ & Hg & _).
  by rewrite Hl, Hg.
Defined.

(** [any] over tests that all evaluate: it evaluates, to [True] exactly
    when one of them does. *)
Lemma any_evaluates {A} (f : A -> result bool) (l : list A) :
  Forall (fun p => exists b, f p = Ok b) l ->
  exists b, Py.any f l = Ok b /\
            (b = true <-> exists p, p ∈ l /\ f p = Ok true).
Proof.
  induction 1 as [|p l [b Hp] _ (b' & E & Hb')]; cbn [Py.any].
  - exists false. split; [done|]. split; [done|].
    intros (p & Hin & _). by apply elem_of_nil in Hin.
  - rewrite Hp. cbn [Py.bind]. destruct b.
    + exists true. split; [done|]. split; [|done]. intros _. exists p.
      split; [apply list_elem_of_here|done].
    + exists b'. split; [done|]. rewrite Hb'. split.
      * intros (q & Hin & Hq). exists q.
        split; [by apply list_elem_of_further|done].
      * intros (q & Hin & Hq). apply elem_of_cons in Hin as [->|Hin].
        -- congruence.
        -- by exists q.
Qed.

Lemma ge_float_number v f : is_number v -> exists b, ge_float v f = Ok b.
Proof. destruct v; simpl; intros H; try done; eauto. Qed.

Lemma has_mask_without_label c preds :
  Forall (fun p => d_class p <> "face-mask") preds ->
  has_mask c preds = Ok false.
Proof.
  induction 1 as [|p l Hp _ IH]; [done|].
  unfold has_mask in *. cbn [Py.any].
  rewrite bool_decide_eq_false_2; [by cbn [Py.bind]|].
  unfold MASK_LABELS. by rewrite elem_of_singleton.
Qed.

(** X4. Only the label ["face-mask"] can open the door. A tick whose
    snapshot holds no detection of class ["face-mask"], whatever else it
    holds at whatever confidence (a detection of class ["mask"] included),
    leaves no hold in progress and sets no flag that was not set. *)
Theorem no_face_mask_label_no_hold self t self' :
  Forall (fun p => d_class p <> "face-mask") (snapshot t) ->
  tick self t = Ok self' ->
  has_mask (cfg self) (snapshot t) = Ok false /\
  mask_start self' = None /\
  (access_granted self' = true -> access_granted self = true).
Proof.
  intros Hl E. pose proof (has_mask_without_label (cfg self) _ Hl) as Hm.
  split; [done|].
  destruct (tick_outcome _ _ _ E) as [_ [[Hs _]|[Hn Hg]]].
  - unfold mask_seen in Hs. congruence.
  - split; [done|]. destruct Hg; congruence.
Qed.

(** A detection of class ["mask"] at confidence 0.99 denies. *)
Lemma no_face_mask_label_no_hold_witness :
  exists self',
    tick (set_mask_start (__init__ sample_cfg) (Some 10%float))
         {| snapshot := [detection "mask" 0.99]; tick_now := 14 |}
      = Ok self' /\
    mask_start self' = None /\
    last_state self' = Some "negado".
Proof.
  eexists. split; [vm_compute; reflexivity|].
  split; [|reflexivity].
  refine (proj1 (proj2 (no_face_mask_label_no_hold
            (set_mask_start (__init__ sample_cfg) (Some 10%float))
            {| snapshot := [detection "mask" 0.99]; tick_now := 14 |}
            _ _ _))).
  - repeat constructor. discriminate.
  - vm_compute. reflexivity.
Defined.

(** X5. With numeric confidences the state machine cannot fail:
    [_update_access] returns. A detection that carries one of the labels
    tested and a confidence that is not a number makes it raise
    [TypeError] as soon as the scan reaches it; at the head of the list
    under a mask label, on every tick. *)
Theorem update_access_returns_on_numeric_confidences self now :
  (Forall (fun p => is_number (d_conf p)) (predictions self) ->
   exists self', _update_access self now = Ok self') /\
  (forall p rest,
     predictions self = p :: rest ->
     d_class p ∈ MASK_LABELS -> ~ is_number (d_conf p) ->
     _update_access self now = Raise TypeError).
Proof.
  split.
  - intros Hnum. unfold _update_access.
    destruct (any_evaluates
      (fun p : Detection =>
         if bool_decide (d_class p ∈ MASK_LABELS)
         then ge_float (d_conf p) (mask_conf_threshold (cfg self))
         else Ok false) (predictions self)) as (hm & Em & _).
    { eapply Forall_impl; [exact Hnum|]. intros p Hp. simpl.
      case_bool_decide; [by apply ge_float_number|by exists false]. }
    destruct (any_evaluates
      (fun p : Detection =>
         if bool_decide (d_class p ∈ FACE_LABELS)
         then ge_float (d_conf p) (conf_threshold (cfg self))
         else Ok false) (predictions self)) as (hf & Ef & _).
    { eapply Forall_impl; [exact Hnum|]. intros p Hp. simpl.
      case_bool_decide; [by apply ge_float_number|by exists false]. }
    unfold has_mask, has_face. rewrite Em, Ef. cbn [Py.bind].
    destruct hm; [destruct (mask_start self); [destruct (_ <=? _)%float|]
                 |destruct hf]; eauto.
  - intros p rest Ep Hl Hn. unfold _update_access, has_mask. rewrite Ep.
    cbn [Py.any]. rewrite bool_decide_eq_true_2 by done.
    destruct (d_conf p); simpl in Hn; try done; by destruct Hn.
Qed.

(** An integer confidence is compared as it is; a string is not. *)
Lemma update_access_returns_on_numeric_confidences_witness :
  (exists self',
     _update_access
       (set_predictions (__init__ sample_cfg)
          [ {| d_x := 0; d_y := 0; d_w := 1; d_h := 1;
               d_conf := PInt 1; d_class := "face-mask" |} ]) 10
     = Ok self') /\
  _update_access
    (set_predictions (__init__ sample_cfg)
       [ {| d_x := 0; d_y := 0; d_w := 1; d_h := 1;
            d_conf := PStr "high"; d_class := "face-mask" |} ]) 10
  = Raise TypeError.
Proof.
  split.
  - apply (proj1 (update_access_returns_on_numeric_confidences _ 10)).
    by repeat constructor.
  - eapply (proj2 (update_access_returns_on_numeric_confidences _ 10));
      [reflexivity|by vm_compute|by intros []].
Defined.

Lemma mapped_entry_fields sx sy d det :
  mapped_entry sx sy d = Some det ->
  (d !! "confidence" = Some (d_conf det)) /\
  d_class det = lower_string (text (label d)).
Proof.
  unfold mapped_entry.
  destruct (d !! "x"), (d !! "y"), (d !! "width"), (d !! "height"),
    (d !! "confidence"); intros [= <-]; done.
Qed.

(** X6. The label is matched whatever its case, end to end. When the raw
    predictions are well typed with numeric confidences, and one of them
    has a complete box, a label that reads ["face-mask"] once in lower case
    (under [class] or [name]) and a confidence of at least
    [mask_conf_threshold], then [_adjust] publishes a list on which
    [has_mask] is true. *)
Theorem raw_face_mask_in_any_case_is_a_mask self ds h w sx sy d conf :
  int_truediv w (resize_dim (cfg self)).1 = Ok sx ->
  int_truediv h (resize_dim (cfg self)).2 = Ok sy ->
  Forall well_typed ds ->
  Forall (fun d => forall v, d !! "confidence" = Some v -> is_number v) ds ->
  d ∈ ds ->
  is_Some (mapped_entry sx sy d) ->
  lower_string (text (label d)) = "face-mask" ->
  d !! "confidence" = Some conf ->
  ge_float conf (mask_conf_threshold (cfg self)) = Ok true ->
  exists self',
    _adjust self (PList (PDict <$> ds)) (h, w) = Ok self' /\
    has_mask (cfg self') (predictions self') = Ok true.
Proof.
  intros Hsx Hsy Hwt Hnum Hin [det Hdet] Hlbl Hconf Hge.
  rewrite (adjust_dicts self ds h w sx sy Hsx Hsy Hwt).
  eexists. split; [reflexivity|]. cbn [cfg predictions set_predictions].
  destruct (any_evaluates
    (fun p : Detection =>
       if bool_decide (d_class p ∈ MASK_LABELS)
       then ge_float (d_conf p) (mask_conf_threshold (cfg self))
       else Ok false) (omap (mapped_entry sx sy) ds)) as (b & E & Hb).
  - apply Forall_forall. intros p Hp.
    apply list_elem_of_omap in Hp as (d' & Hd' & Hp).
    case_bool_decide; [|by exists false].
    apply ge_float_number.
    destruct (mapped_entry_fields _ _ _ _ Hp) as [Hc _].
    rewrite Forall_forall in Hnum. by apply (Hnum d').
  - unfold has_mask. rewrite E. f_equal. apply Hb. exists det. split.
    + apply list_elem_of_omap. by exists d.
    + destruct (mapped_entry_fields _ _ _ _ Hdet) as [Hc Hcl].
      rewrite Hcl, Hlbl. rewrite bool_decide_eq_true_2.
      * rewrite Hconf in Hc. by injection Hc as <-.
      * unfold MASK_LABELS. by apply elem_of_singleton.
Qed.

Lemma raw_face_mask_in_any_case_is_a_mask_witness :
  exists self',
    _adjust (__init__ sample_cfg)
      (PList (PDict <$> [boxless_prediction; shouted_prediction])) (384, 512)
      = Ok self' /\
    has_mask (cfg self') (predictions self') = Ok true.
Proof.
  apply (raw_face_mask_in_any_case_is_a_mask (__init__ sample_cfg)
           [boxless_prediction; shouted_prediction] 384 512 4%float 4%float
           shouted_prediction (PInt 1)).
  - vm_compute; reflexivity.
  - vm_compute; reflexivity.
  - repeat (apply Forall_cons; split;
            [apply well_typedb_sound; vm_compute; reflexivity|]).
    apply Forall_nil_2.
  - repeat (apply Forall_cons; split;
            [intros v E; vm_compute in E; by injection E as <-|]).
    apply Forall_nil_2.
  - apply list_elem_of_further, list_elem_of_here.
  - eexists. vm_compute. reflexivity.
  - vm_compute; reflexivity.
  - vm_compute; reflexivity.
  - vm_compute; reflexivity.
Defined.

(** ** Further properties of the frame hand-off *)

Lemma enqueue_queue_length self frame now self' :
  _enqueue self frame now = Some self' ->
  (length (items (queue self')) <= S (length (items (queue self))))%nat.
Proof.
  unfold _enqueue. destruct (_ && _); [|intros [= <-]; lia].
  unfold Queue_put. destruct (Queue_full _); [done|].
  intros [= <-]. simpl. rewrite length_app. simpl. lia.
Qed.

Lemma step_backlog w e w' :
  step w e = Some w' ->
  (backlog w' <= backlog w + (if is_submit e then 1 else 0))%nat.
Proof.
  unfold backlog. destruct e as [frame now|encoded now|post now]; cbn [step is_submit].
  - destruct (_enqueue (sys w) frame now) as [s|] eqn:E; [|done].
    intros [= <-]. apply enqueue_queue_length in E. simpl. lia.
  - destruct (worker_alive w); [|done].
    destruct (in_flight w); [done|]. unfold Queue_get.
    destruct (items (queue (sys w))) as [|f r] eqn:Ei; [done|].
    destruct encoded as [[]|]; intros [= <-]; simpl; rewrite ?length_app;
      simpl; lia.
  - destruct (in_flight w) as [frame|]; [|done].
    destruct (infer_cases (sys w) frame true post now)
      as [E|(adjusted & _ & E)]; rewrite E; intros [= <-]; simpl; lia.
Qed.

Lemma run_backlog es : forall w w',
  run w es = Some w' ->
  (backlog w' <= backlog w + length (submissions es))%nat.
Proof.
  induction es as [|e es IH]; intros w w' E; cbn [run] in E.
  - injection E as <-. simpl. lia.
  - destruct (step w e) as [w1|] eqn:E1; [|done].
    apply step_backlog in E1. apply IH in E. unfold submissions in *.
    cbn [List.filter]. destruct (is_submit e); simpl in *; lia.
Qed.

(** X7. The worker posts no request without a submission: along every
    interleaving of the capture loop and the worker, the requests posted so
    far and the frame pending together never outnumber the calls of
    [_enqueue]. *)
Theorem requests_bounded_by_submissions c es w :
  run (World_init c) es = Some w ->
  (length (calls w) + length (items (queue (sys w)))
   <= length (submissions es))%nat.
Proof. intros E. apply run_backlog in E. unfold backlog in E. simpl in E. lia. Qed.

(** Three submissions, one of them dropped: two requests. *)
Lemma requests_bounded_by_submissions_witness :
  exists w,
    run (World_init sample_cfg)
      [ Submit sample_frame 100; Submit sample_frame 100.2;
        WorkerGet (Ok true) 100.3; Submit sample_frame 100.4;
        WorkerDone (response no_predictions) 100.5; WorkerGet (Ok true) 100.6 ]
    = Some w /\
    length (calls w) = 2%nat /\
    (length (calls w) + length (items (queue (sys w))) <= 3)%nat.
Proof.
  eexists. split; [vm_compute; reflexivity|]. split; [reflexivity|].
  refine (requests_bounded_by_submissions sample_cfg
            [ Submit sample_frame 100; Submit sample_frame 100.2;
              WorkerGet (Ok true) 100.3; Submit sample_frame 100.4;
              WorkerDone (response no_predictions) 100.5;
              WorkerGet (Ok true) 100.6 ] _ _).
  vm_compute; reflexivity.
Defined.

Lemma div_succ i k :
  0 < k -> 0 <= i ->
  (i + 1) / k = i / k + (if (i + 1) mod k =? 0 then 1 else 0).
Proof.
  intros Hk Hi.
  pose proof (Z.mod_pos_bound i k Hk) as Hb.
  pose proof (Z.div_mod i k ltac:(lia)) as Hd.
  destruct (Z.eq_dec (i mod k + 1) k) as [E'|E'].
  - assert ((i + 1) mod k = 0) as ->.
    { rewrite <- (Zplus_mod_idemp_l i 1 k), E'. apply Z.mod_same. lia. }
    simpl. symmetry. apply (Z.div_unique_pos (i + 1) k _ 0); lia.
  - assert ((i + 1) mod k = i mod k + 1) as E.
    { rewrite <- (Zplus_mod_idemp_l i 1 k). apply Z.mod_small. lia. }
    rewrite E. destruct (Z.eqb_spec (i mod k + 1) 0); [lia|].
    symmetry. apply (Z.div_unique_pos (i + 1) k _ (i mod k + 1)); lia.
Qed.

Section Loop.

Variable display : MaskAccessSystem -> Frame -> result MaskAccessSystem.
Variable c : Config.
Hypothesis Hheadless : headless c = true.
Hypothesis Hskip : 0 < frame_skip c.

Lemma process_frame_inv st n cap :
  loop_inv c st n ->
  process_frame display (sys (world st)) (frame_idx st) cap <> Blocked /\
  forall self' idx evs,
    process_frame display (sys (world st)) (frame_idx st) cap
      = Went (self', idx, evs) ->
    loop_inv c {| world := {| sys := self'; in_flight := in_flight (world st);
                            calls := calls (world st);
                            worker_alive := worker_alive (world st) |};
                frame_idx := idx; offered := offered st ++ evs |}
             (n + length (frames_captured [Iteration cap])).
Proof.
  intros (Hc & [Hmax Hlen] & Hidx & Hoff & Hback).
  unfold process_frame, frames_captured. cbn [omap list_omap].
  destruct (captured cap) as [frame|]; cbn [length].
  2:{ split; [done|]. intros self' idx evs [= <- <- <-].
      rewrite app_nil_r, Nat.add_0_r. destruct st as [[? ? ?] ? ?].
      by repeat split. }
  rewrite Hc, Hidx in *. destruct (Z.eqb_spec (frame_skip c) 0) as [|_]; [lia|].
  set (offer := (Z.of_nat n + 1) mod frame_skip c =? 0).
  assert (exists self1,
    (if offer then _enqueue (sys (world st)) frame (enqueue_clock cap)
     else Some (sys (world st))) = Some self1 /\
    cfg self1 = c /\ maxsize (queue self1) = 1%nat /\
    (length (items (queue self1)) <= 1)%nat /\
    (length (items (queue self1))
     <= length (items (queue (sys (world st)))) + (if offer then 1 else 0))%nat)
    as (self1 & -> & Hc1 & Hmax1 & Hlen1 & Hq1).
  { destruct offer.
    - destruct (enqueue_never_blocks (sys (world st)) frame
                  (enqueue_clock cap) Hmax Hlen) as (self1 & E & ? & ?).
      exists self1. split; [done|].
      destruct (enqueue_keeps _ _ _ _ E) as [? _].
      apply enqueue_queue_length in E. repeat split; try congruence; lia.
    - exists (sys (world st)). repeat split; try done; lia. }
  destruct (_update_access self1 (update_clock cap)) as [self2|e] eqn:E2;
    [|by split].
  destruct (update_access_keeps _ _ _ E2) as (_ & _ & Hq2 & Hc2 & _).
  rewrite Hc2, Hc1, Hheadless. split; [done|].
  intros self' idx evs [= <- <- <-].
  unfold loop_inv, single_slot, backlog in *. cbn.
  rewrite Hq2, length_app in *.
  repeat split; try congruence; try lia.
  - rewrite (div_succ (Z.of_nat n) (frame_skip c)) by lia.
    fold offer. destruct offer; simpl in *; lia.
  - destruct offer; simpl; lia.
Qed.

Lemma worker_step_cfg w e w' :
  is_submit e = false -> step w e = Some w' -> cfg (sys w') = cfg (sys w).
Proof.
  destruct e as [frame now|encoded now|post now]; [done| |]; intros _;
    cbn [step].
  - destruct (worker_alive w); [|done].
    destruct (in_flight w); [done|].
    destruct (Queue_get _) as [[f q]|]; [|done].
    destruct encoded as [[]|]; by intros [= <-].
  - destruct (in_flight w) as [frame|]; [|done].
    destruct (infer_cases (sys w) frame true post now)
      as [E|(adjusted & _ & E)]; rewrite E; by intros [= <-].
Qed.

Lemma worker_step_inv st n e w' :
  is_submit e = false ->
  loop_inv c st n -> step (world st) e = Some w' ->
  loop_inv c {| world := w'; frame_idx := frame_idx st; offered := offered st |}
           n.
Proof.
  intros He (Hc & Hslot & Hidx & Hoff & Hback) E. unfold loop_inv. cbn.
  split; [by rewrite (worker_step_cfg _ _ _ He E)|].
  split; [by eapply step_single_slot|].
  split; [done|]. split; [done|].
  apply step_backlog in E. rewrite He in E. lia.
Qed.

Lemma loop_step_inv st n ev :
  loop_inv c st n ->
  loop_step display st ev <> Blocked /\
  forall st', loop_step display st ev = Went st' ->
              loop_inv c st' (n + length (frames_captured [ev])).
Proof.
  intros Hinv. destruct ev as [cap|encoded now|post now|]; cbn [loop_step].
  - destruct (running _); [|by split].
    destruct (process_frame_inv st n cap Hinv) as [Hnb Hgo].
    destruct (process_frame _ _ _ _) as [[[self' idx] evs]| | |]; try done.
    split; [done|]. intros st' [= <-]. by apply Hgo.
  - unfold with_world. destruct (step _ _) as [w'|] eqn:E; [|by split].
    split; [done|]. intros st' [= <-]. rewrite Nat.add_0_r.
    by apply (worker_step_inv st n (WorkerGet encoded now) w').
  - unfold with_world. destruct (step _ _) as [w'|] eqn:E; [|by split].
    split; [done|]. intros st' [= <-]. rewrite Nat.add_0_r.
    by apply (worker_step_inv st n (WorkerDone post now) w').
  - split; [done|]. intros st' [= <-]. rewrite Nat.add_0_r.
    unfold loop_inv, single_slot, backlog in *. cbn.
    destruct Hinv as (? & [? ?] & ? & ? & ?). by repeat split.
Qed.

Lemma loop_run_inv evs : forall st n,
  loop_inv c st n ->
  loop_run display st evs <> Blocked /\
  forall st', loop_run display st evs = Went st' ->
              loop_inv c st' (n + length (frames_captured evs)).
Proof.
  induction evs as [|ev evs IH]; intros st n Hinv; cbn [loop_run].
  - split; [done|]. intros st' [= <-]. by rewrite Nat.add_0_r.
  - destruct (loop_step_inv st n ev Hinv) as [Hnb Hgo].
    destruct (loop_step display st ev) as [st1| | |]; try done.
    destruct (IH st1 _ (Hgo st1 eq_refl)) as [Hnb' Hgo'].
    split; [done|]. intros st' E. apply Hgo' in E.
    replace (frames_captured (ev :: evs))
      with (frames_captured [ev] ++ frames_captured evs)
      by (unfold frames_captured; by rewrite <- omap_app).
    by rewrite length_app, Nat.add_assoc.
Qed.

End Loop.

(** X8. In a headless system with a positive [frame_skip], however the
    loop of [_process_frames], the worker and the caller interleave: the
    loop never blocks on the hand-off; [frame_idx] counts the frames
    captured (a failed capture counts for nothing); the loop has called
    [_enqueue] on every [frame_skip]-th captured frame and on no other, that
    is [frame_idx // frame_skip] times; and the requests posted never
    outnumber these calls. *)
Theorem capture_loop_offers_every_nth_frame display c evs :
  headless c = true -> 0 < frame_skip c ->
  loop_run display (loop_init c) evs <> Blocked /\
  forall st,
    loop_run display (loop_init c) evs = Went st ->
    frame_idx st = Z.of_nat (length (frames_captured evs)) /\
    Z.of_nat (length (offered st)) = frame_idx st / frame_skip c /\
    (length (calls (world st)) <= length (offered st))%nat.
Proof.
  intros Hh Hk.
  destruct (loop_run_inv display c Hh Hk evs (loop_init c) 0%nat) as [Hnb Hgo].
  { unfold loop_inv, loop_init, single_slot, backlog. cbn.
    repeat split; try done; lia. }
  split; [done|]. intros st E.
  destruct (Hgo st E) as (_ & _ & Hidx & Hoff & Hback).
  unfold backlog in Hback. repeat split; [done|done|lia].
Qed.

Lemma capture_loop_offers_every_nth_frame_witness :
  exists st,
    loop_run no_display (loop_init sample_cfg) sample_loop_trace = Went st /\
    frame_idx st = 25 /\
    length (offered st) = 2%nat /\
    length (calls (world st)) = 1%nat.
Proof.
  destruct (loop_run no_display (loop_init sample_cfg) sample_loop_trace)
    as [st| | |] eqn:E; try (vm_compute in E; discriminate E).
  exists st. split; [reflexivity|].
  destruct (proj2 (capture_loop_offers_every_nth_frame no_display sample_cfg
                     sample_loop_trace eq_refl eq_refl) st E)
    as (Hidx & Hoff & _).
  split; [exact Hidx|]. split.
  - rewrite Hidx in Hoff. apply Nat2Z.inj. rewrite Hoff. reflexivity.
  - vm_compute in E. by injection E as <-.
Defined.

(** ** The end of the worker *)

(** Once the worker has ended, only submissions happen, and they change
    neither the requests posted nor what [_infer] writes. *)
Lemma run_after_worker_ended es : forall w w',
  worker_alive w = false -> in_flight w = None ->
  run w es = Some w' ->
  submissions es = es /\
  calls w' = calls w /\
  predictions (sys w') = predictions (sys w) /\
  last_infer (sys w') = last_infer (sys w).
Proof.
  induction es as [|e es IH]; intros w w' Hdead Hidle Hrun; cbn [run] in Hrun.
  - by injection Hrun as <-.
  - destruct (step w e) as [w1|] eqn:E; [|done].
    destruct e as [frame now|encoded now|post now]; cbn [step] in E.
    + destruct (_enqueue (sys w) frame now) as [s|] eqn:Eq; [|done].
      injection E as <-.
      apply enqueue_fields in Eq as (Hl & _ & Hp).
      destruct (IH _ _ (Hdead : worker_alive {| sys := s |} = false)
                  (Hidle : in_flight {| sys := s |} = None) Hrun)
        as (Hs & Hc & Hp' & Hl').
      unfold submissions in *. cbn [List.filter is_submit].
      cbn [calls sys] in *. repeat split; congruence.
    + by rewrite Hdead in E.
    + by rewrite Hidle in E.
Qed.

(** X18. An error of [cv2.resize] or [cv2.imencode] is not caught: it
    leaves [_infer], whatever the backend would have answered, and ends
    the worker. From then on the capture loop can go on submitting, but
    no worker event happens any more: no request is posted, and the
    published detections and [last_infer] stay as they were. *)
Theorem encode_error_ends_the_worker w e now w1 es w' :
  step w (WorkerGet (Raise e) now) = Some w1 ->
  run w1 es = Some w' ->
  (forall self frame post t, _infer self frame (Raise e) post t = Raise e) /\
  submissions es = es /\
  calls w' = calls w /\
  predictions (sys w') = predictions (sys w) /\
  last_infer (sys w') = last_infer (sys w).
Proof.
  intros Hstep Hrun. split; [done|].
  cbn [step] in Hstep.
  destruct (worker_alive w); [|done].
  destruct (in_flight w); [done|].
  destruct (Queue_get _) as [[f q]|]; [|done].
  injection Hstep as <-.
  by apply (run_after_worker_ended es _ w') in Hrun.
Qed.

(** A frame is taken and cannot be resized; two more are submitted. *)
Lemma encode_error_ends_the_worker_witness :
  run (World_init sample_cfg) [Submit sample_frame 100] = Some sample_pending /\
  exists w1 w',
    step sample_pending (WorkerGet (Raise CvError) 100.1) = Some w1 /\
    run w1 [Submit sample_frame 100.2; Submit sample_frame 100.3] = Some w' /\
    calls w' = [] /\
    step w' (WorkerGet (Ok true) 100.4) = None.
Proof.
  split; [vm_compute; reflexivity|].
  eexists _, _.
  split; [vm_compute; reflexivity|]. split; [vm_compute; reflexivity|].
  split; [|vm_compute; reflexivity].
  refine (eq_trans
    (proj1 (proj2 (proj2 (encode_error_ends_the_worker sample_pending
       CvError 100.1 _
       [Submit sample_frame 100.2; Submit sample_frame 100.3] _ _ _)))) _);
    vm_compute; reflexivity.
Defined.

(** ** The session *)

(** X9. One decision per credential. For every tag read, registered or
    not, and whatever the detector reports, the iteration of [main] writes
    exactly one of [ACESSO:OK] and [ACESSO:NEGADO]; it writes [ACESSO:OK]
    exactly when the tag is registered and the grant was seen; and when it
    constructs a detector it stops it and joins its thread, on the grant
    and on the denial alike. *)
Theorem one_decision_per_credential db tag granted :
  tag <> "" ->
  length (List.filter is_decision (main_iteration db (Some tag) granted))
    = 1%nat /\
  (liberar_acesso ∈ main_iteration db (Some tag) granted <->
   is_Some (tag_autorizada db tag) /\ granted = true) /\
  (forall c, NewDetector c ∈ main_iteration db (Some tag) granted ->
     exists pre mid post,
       main_iteration db (Some tag) granted
       = pre ++ NewDetector c :: StartThread :: mid
             ++ StopDetector :: JoinThread :: post).
Proof.
  intros Htag. unfold main_iteration.
  destruct tag as [|a tag]; [done|].
  destruct (tag_autorizada db (String a tag)) as [nome|]; [destruct granted|].
  - split; [reflexivity|]. split.
    + split; [by eauto|]. intros _.
      do 7 apply list_elem_of_further. apply list_elem_of_here.
    + intros c H. eexists [_; _; _; _], [_; _], _.
      assert (c = main_cfg) as ->; [|reflexivity].
      repeat (apply elem_of_cons in H as [H|H]; [try discriminate H|]);
        [by injection H|..]; try (vm_compute in H; discriminate H).
      by apply elem_of_nil in H.
  - split; [reflexivity|]. split.
    + split; [|by intros [_ ?]]. intros H. exfalso. absent_effect H.
    + intros c H. eexists [_; _; _; _], [_; _], _.
      assert (c = main_cfg) as ->; [|reflexivity].
      repeat (apply elem_of_cons in H as [H|H]; [try discriminate H|]);
        [by injection H|..]; try (vm_compute in H; discriminate H).
      by apply elem_of_nil in H.
  - split; [reflexivity|]. split.
    + split; [|by intros [[? ?] _]]. intros H. exfalso. absent_effect H.
    + intros c H. exfalso. absent_effect H.
Qed.

Lemma one_decision_per_credential_witness :
  length (List.filter is_decision
            (main_iteration {[ "04A1B2" := "Ana" ]} (Some "04A1B2") false))
  = 1%nat /\
  length (List.filter is_decision
            (main_iteration {[ "04A1B2" := "Ana" ]} (Some "FFEE01") true))
  = 1%nat.
Proof.
  split; apply one_decision_per_credential; discriminate.
Defined.

Lemma poll_grants deadline readings :
  poll deadline readings = Some true <->
  exists pre now post,
    readings = pre ++ (now, true) :: post /\
    (now <? deadline)%float = true /\
    Forall (fun r => (r.1 <? deadline)%float = true /\ r.2 = false) pre.
Proof.
  induction readings as [|[now g] rest IH]; cbn [poll].
  - split; [done|]. intros ([|? ?] & ? & ? & ? & _); done.
  - destruct (now <? deadline)%float eqn:E.
    + destruct g.
      * split; [|done]. intros _. by exists [], now, rest.
      * rewrite IH. split.
        -- intros (pre & now' & post & -> & Hn & Hpre).
           exists ((now, false) :: pre), now', post.
           split; [done|]. split; [done|]. by constructor.
        -- intros ([|r pre] & now' & post & Heq & Hn & Hpre);
             [by injection Heq|].
           injection Heq as <- ->. inversion_clear Hpre.
           by exists pre, now', post.
    + split; [done|].
      intros ([|r pre] & now' & post & Heq & Hn & Hpre).
      * injection Heq as <- _. congruence.
      * injection Heq as <- _. inversion_clear Hpre as [|? ? [Hr _] _].
        simpl in Hr. congruence.
Qed.

Lemma poll_denies deadline readings :
  poll deadline readings = Some false <->
  exists pre now granted post,
    readings = pre ++ (now, granted) :: post /\
    (now <? deadline)%float = false /\
    Forall (fun r => (r.1 <? deadline)%float = true /\ r.2 = false) pre.
Proof.
  induction readings as [|[now g] rest IH]; cbn [poll].
  - split; [done|]. intros ([|? ?] & ? & ? & ? & ? & _); done.
  - destruct (now <? deadline)%float eqn:E.
    + destruct g.
      * split; [done|].
        intros ([|r pre] & now' & g' & post & Heq & Hn & Hpre).
        -- injection Heq as <- _. congruence.
        -- injection Heq as <- _. inversion_clear Hpre as [|? ? [_ Hr] _].
           simpl in Hr. congruence.
      * rewrite IH. split.
        -- intros (pre & now' & g' & post & -> & Hn & Hpre).
           exists ((now, false) :: pre), now', g', post.
           split; [done|]. split; [done|]. by constructor.
        -- intros ([|r pre] & now' & g' & post & Heq & Hn & Hpre).
           ++ injection Heq as <- _. congruence.
           ++ injection Heq as <- ->. inversion_clear Hpre.
              by exists pre, now', g', post.
    + split; [|done]. intros _. by exists [], now, g, rest.
Qed.

Lemma registered_decision db tag nome granted :
  tag <> "" ->
  tag_autorizada db tag = Some nome ->
  (liberar_acesso ∈ main_iteration db (Some tag) granted <-> granted = true) /\
  (negar_acesso ∈ main_iteration db (Some tag) granted <-> granted = false).
Proof.
  intros Htag Hdb. unfold main_iteration.
  destruct tag as [|a tag]; [done|]. rewrite Hdb.
  destruct granted; (split; split; try done; intros H).
  - do 7 apply list_elem_of_further. apply list_elem_of_here.
  - exfalso. absent_effect H.
  - exfalso. absent_effect H.
  - do 7 apply list_elem_of_further. apply list_elem_of_here.
Qed.

(** X10. The deadline decides. For a registered tag, the session writes
    [ACESSO:OK] exactly when some reading of the clock before the deadline
    ([started + 10]) found [access_granted] set, all earlier readings being
    before the deadline too; and it writes [ACESSO:NEGADO] exactly when a
    reading of the clock at or past the deadline came before any such
    sighting: a flag set too late opens nothing. *)
Theorem session_grants_only_before_deadline db tag started readings effects :
  tag <> "" ->
  is_Some (tag_autorizada db tag) ->
  main_read db (Some tag) started readings = Some effects ->
  (liberar_acesso ∈ effects <->
   exists pre now post,
     readings = pre ++ (now, true) :: post /\
     (now <? started + 10)%float = true /\
     Forall (fun r => (r.1 <? started + 10)%float = true /\ r.2 = false) pre) /\
  (negar_acesso ∈ effects <->
   exists pre now granted post,
     readings = pre ++ (now, granted) :: post /\
     (now <? started + 10)%float = false /\
     Forall (fun r => (r.1 <? started + 10)%float = true /\ r.2 = false) pre).
Proof.
  intros Htag [nome Hdb]. unfold main_read.
  destruct tag as [|a tag]; [done|]. rewrite Hdb.
  destruct (poll (started + 10) readings) as [granted|] eqn:Ep; [|done].
  intros [= <-].
  destruct (registered_decision db _ nome granted Htag Hdb) as [Hl Hn].
  rewrite Hl, Hn, <- poll_grants, <- poll_denies, Ep.
  split; split; congruence.
Qed.

(** The flag is set at the fourth poll, 0.6 s into the session; in another
    session it is set only after ten seconds. *)
Lemma session_grants_only_before_deadline_witness :
  (exists effects,
     main_read {[ "04A1B2" := "Ana" ]} (Some "04A1B2") 50
       [(50, false); (50.2, false); (50.4, false); (50.6, true)]%float
     = Some effects /\ liberar_acesso ∈ effects) /\
  (exists effects,
     main_read {[ "04A1B2" := "Ana" ]} (Some "04A1B2") 50
       [(50, false); (55, false); (60.1, true)]%float
     = Some effects /\ negar_acesso ∈ effects).
Proof.
  split.
  - eexists. split; [vm_compute; reflexivity|].
    refine (proj2 (proj1 (session_grants_only_before_deadline
              {[ "04A1B2" := "Ana" ]} "04A1B2" 50
              [(50, false); (50.2, false); (50.4, false); (50.6, true)]%float
              _ _ _ _)) _).
    + discriminate.
    + by eexists.
    + vm_compute; reflexivity.
    + exists [(50, false); (50.2, false); (50.4, false)]%float, 50.6%float, [].
      split; [reflexivity|]. split; [vm_compute; reflexivity|].
      repeat (constructor; [split; vm_compute; reflexivity|]). constructor.
  - eexists. split; [vm_compute; reflexivity|].
    refine (proj2 (proj2 (session_grants_only_before_deadline
              {[ "04A1B2" := "Ana" ]} "04A1B2" 50
              [(50, false); (55, false); (60.1, true)]%float
              _ _ _ _)) _).
    + discriminate.
    + by eexists.
    + vm_compute; reflexivity.
    + exists [(50, false); (55, false)]%float, 60.1%float, true, [].
      split; [reflexivity|]. split; [vm_compute; reflexivity|].
      repeat (constructor; [split; vm_compute; reflexivity|]). constructor.
Defined.

(** ** The reader and the table of tags *)

Lemma rstrip_cons_nonspace c r :
  is_space c = false -> rstrip (String c r) = String c (rstrip r).
Proof. intros H. cbn [rstrip]. rewrite H. by destruct (rstrip r). Qed.

Lemma rstrip_cons c r :
  rstrip (String c r)
  = match rstrip r with
    | EmptyString => if is_space c then EmptyString else String c EmptyString
    | r' => String c r'
    end.
Proof. reflexivity. Qed.

Lemma rstrip_idem s : rstrip (rstrip s) = rstrip s.
Proof.
  induction s as [|c r IH]; [done|]. rewrite rstrip_cons.
  destruct (rstrip r) as [|c' r'] eqn:E.
  - destruct (is_space c) eqn:Ec; [done|]. rewrite rstrip_cons. simpl.
    by rewrite Ec.
  - by rewrite rstrip_cons, IH.
Qed.

Lemma rstrip_empty_lstrip s : rstrip s = EmptyString -> lstrip s = EmptyString.
Proof.
  induction s as [|c r IH]; [done|]. cbn [rstrip lstrip].
  destruct (rstrip r) as [|c' r'] eqn:E; [|done].
  destruct (is_space c); [auto|done].
Qed.

Lemma lstrip_rstrip s : lstrip (rstrip s) = rstrip (lstrip s).
Proof.
  induction s as [|c r IH]; [done|].
  destruct (is_space c) eqn:Ec.
  - rewrite rstrip_cons. cbn [lstrip]. rewrite Ec.
    destruct (rstrip r) as [|c' r'] eqn:E.
    + by rewrite (rstrip_empty_lstrip r E).
    + cbn [lstrip]. rewrite Ec. by rewrite <- IH.
  - rewrite (rstrip_cons_nonspace c r Ec). cbn [lstrip]. rewrite Ec.
    by rewrite (rstrip_cons_nonspace c r Ec).
Qed.

Lemma lstrip_idem s : lstrip (lstrip s) = lstrip s.
Proof.
  induction s as [|c r IH]; [done|]. cbn [lstrip].
  destruct (is_space c) eqn:Ec; [done|]. cbn [lstrip]. by rewrite Ec.
Qed.

Lemma strip_idem s : strip (strip s) = strip s.
Proof.
  unfold strip. by rewrite lstrip_rstrip, lstrip_idem, rstrip_idem.
Qed.

Lemma strip_rstrip s : strip (rstrip s) = strip s.
Proof. unfold strip. by rewrite lstrip_rstrip, rstrip_idem. Qed.

Lemma is_space_upper c : is_space (upper_ascii c) = is_space c.
Proof. destruct c as [[] [] [] [] [] [] [] []]; reflexivity. Qed.

Lemma upper_ascii_idem c : upper_ascii (upper_ascii c) = upper_ascii c.
Proof. destruct c as [[] [] [] [] [] [] [] []]; reflexivity. Qed.

Lemma upper_idem s : upper (upper s) = upper s.
Proof.
  induction s as [|c r IH]; [done|]. cbn [upper].
  by rewrite upper_ascii_idem, IH.
Qed.

Lemma lstrip_upper s : lstrip (upper s) = upper (lstrip s).
Proof.
  induction s as [|c r IH]; [done|]. cbn [upper lstrip].
  rewrite is_space_upper. by destruct (is_space c).
Qed.

Lemma rstrip_upper s : rstrip (upper s) = upper (rstrip s).
Proof.
  induction s as [|c r IH]; [done|]. cbn [upper]. rewrite !rstrip_cons.
  rewrite IH, is_space_upper.
  destruct (rstrip r); cbn [upper]; [by destruct (is_space c)|done].
Qed.

Lemma strip_upper s : strip (upper s) = upper (strip s).
Proof. unfold strip. by rewrite lstrip_upper, rstrip_upper. Qed.

Lemma normalise_idem s : normalise (normalise s) = normalise s.
Proof.
  unfold normalise. by rewrite strip_upper, strip_idem, upper_idem.
Qed.

Lemma lstrip_app_spaces pad s :
  lstrip pad = EmptyString -> lstrip (pad +:+ s) = lstrip s.
Proof.
  induction pad as [|c r IH]; intros H; simpl in *; [done|].
  destruct (is_space c); [auto|discriminate].
Qed.

Lemma rstrip_TAG s : rstrip ("TAG:" +:+ s) = "TAG:" +:+ rstrip s.
Proof.
  change ("TAG:" +:+ s)
    with (String "T" (String "A" (String "G" (String ":" s)))).
  by rewrite !rstrip_cons_nonspace.
Qed.

Lemma strip_TAG pad s :
  lstrip pad = EmptyString ->
  strip (pad +:+ "TAG:" +:+ s) = "TAG:" +:+ rstrip s.
Proof.
  intros Hpad. unfold strip. rewrite (lstrip_app_spaces pad _ Hpad).
  replace (lstrip ("TAG:" +:+ s)) with ("TAG:" +:+ s) by reflexivity.
  apply rstrip_TAG.
Qed.

Lemma ler_tag_line pad s :
  lstrip pad = EmptyString ->
  ler_tag (Some (pad +:+ "TAG:" +:+ s)) = Some (normalise s).
Proof.
  intros Hpad. unfold ler_tag, normalise. cbv zeta.
  rewrite (strip_TAG pad s Hpad).
  replace (String.prefix "TAG:" ("TAG:" +:+ rstrip s)) with true
    by (symmetry; apply String.prefix_correct; by destruct (rstrip s)).
  replace (slice_from 4 ("TAG:" +:+ rstrip s)) with (rstrip s) by reflexivity.
  by rewrite strip_rstrip.
Qed.

Lemma ascii_textb_sound s : ascii_textb s = true -> ascii_text s.
Proof.
  unfold ascii_textb, ascii_text. rewrite forallb_forall, Forall_forall.
  intros H c Hc. apply Nat.ltb_lt, H. by apply list_elem_of_In.
Qed.

(** X11. The reader hands over a tag in normal form. On ASCII text, a
    line made of blanks, the prefix [TAG:] and anything else is read as
    what follows the prefix, stripped of its surrounding blanks (the line
    end included) and in upper case; and whatever [ler_tag] returns is left
    as it is by [.strip()] and by [.upper()], the two calls the menu
    applies to the tags it stores. *)
Theorem reader_hands_over_a_normal_form :
  (forall pad sent,
     ascii_text pad -> ascii_text sent -> lstrip pad = "" ->
     ler_tag (Some (pad +:+ "TAG:" +:+ sent)) = Some (normalise sent)) /\
  (forall read tag,
     ascii_text read -> ler_tag (Some read) = Some tag ->
     strip tag = tag /\ upper tag = tag).
Proof.
  split.
  - intros pad sent _ _. apply ler_tag_line.
  - intros read tag _. unfold ler_tag.
    destruct (String.prefix _ _); [|done]. intros [= <-].
    by rewrite strip_upper, strip_idem, upper_idem.
Qed.

Lemma reader_hands_over_a_normal_form_witness :
  ler_tag (Some ("  " +:+ "TAG:" +:+ sample_line_tail)) = Some "04A1B2".
Proof.
  rewrite (proj1 reader_hands_over_a_normal_form "  " sample_line_tail);
    [vm_compute; reflexivity|
     apply ascii_textb_sound; vm_compute; reflexivity..|reflexivity].
Defined.

Lemma tag_autorizada_select t tag :
  tag_autorizada (tags_map t) tag = select_nome t tag.
Proof.
  unfold tag_autorizada, tags_map.
  induction t as [|r t IH]; [done|]. cbn [fmap list_fmap list_to_map foldr select_nome].
  simpl. destruct (String.eqb_spec (row_tag r) tag) as [->|Hne].
  - by rewrite lookup_insert_eq.
  - by rewrite lookup_insert_ne.
Qed.

Lemma has_tag_select t tag :
  has_tag t tag = true <-> is_Some (select_nome t tag).
Proof.
  unfold has_tag. induction t as [|r t IH]; cbn [existsb select_nome].
  - split; [done|]. by intros [? ?].
  - destruct (String.eqb (row_tag r) tag); [by split; eauto|]. by rewrite IH.
Qed.

Lemma has_tag_false_select t tag :
  has_tag t tag = false <-> select_nome t tag = None.
Proof.
  rewrite <- not_true_iff_false, has_tag_select.
  destruct (select_nome t tag) as [n|]; split; intros H; try done;
    first [destruct H; by exists n | by intros [? ?]].
Qed.

Lemma select_app t1 t2 tag :
  select_nome (t1 ++ t2) tag
  = match select_nome t1 tag with
    | Some n => Some n
    | None => select_nome t2 tag
    end.
Proof.
  induction t1 as [|r t1 IH]; [done|]. cbn [app select_nome].
  by destruct (String.eqb (row_tag r) tag).
Qed.

(** X12. [create_tag] registers a tag once. On a tag the table does not
    hold, it makes [tag_autorizada] find the name given and changes the
    answer for no other tag; on a tag the table holds it changes nothing
    (the first name stays) and prints the error. *)
Theorem create_tag_registers_once t nome tag :
  (tag_autorizada (tags_map t) tag = None ->
   tag_autorizada (tags_map (create_tag t nome tag).1) tag = Some nome /\
   forall other, other <> tag ->
     tag_autorizada (tags_map (create_tag t nome tag).1) other
     = tag_autorizada (tags_map t) other) /\
  (is_Some (tag_autorizada (tags_map t) tag) ->
   create_tag t nome tag
   = (t, ["[CRUD] Erro: Tag '" +:+ tag +:+ "' já existe."])).
Proof.
  rewrite !tag_autorizada_select. unfold create_tag, sql_insert. split.
  - intros Hnone. rewrite (proj2 (has_tag_false_select t tag) Hnone).
    cbn [fst]. split.
    + rewrite select_app, Hnone. simpl. by rewrite String.eqb_refl.
    + intros other Hne. rewrite !tag_autorizada_select, select_app.
      destruct (select_nome t other); [done|]. simpl.
      destruct (String.eqb_spec tag other); [congruence|done].
  - intros Hsome. by rewrite (proj2 (has_tag_select t tag) Hsome).
Qed.

Lemma create_tag_registers_once_witness :
  tag_autorizada (tags_map (create_tag sample_table "Caio" "0A0B0C").1)
    "0A0B0C" = Some "Caio" /\
  (create_tag sample_table "Caio" "04A1B2").1 = sample_table.
Proof.
  split.
  - apply (proj1 (create_tag_registers_once sample_table "Caio" "0A0B0C")).
    vm_compute; reflexivity.
  - rewrite (proj2 (create_tag_registers_once sample_table "Caio" "04A1B2"));
      [reflexivity|]. eexists. vm_compute; reflexivity.
Defined.

Lemma select_filter_out t tag other :
  select_nome (List.filter (fun r => negb (String.eqb (row_tag r) tag)) t) other
  = if String.eqb other tag then None else select_nome t other.
Proof.
  induction t as [|r t IH]; cbn [List.filter select_nome].
  - by destruct (String.eqb other tag).
  - destruct (String.eqb_spec (row_tag r) tag) as [E|E]; cbn [negb select_nome].
    + rewrite IH. destruct (String.eqb_spec other tag) as [E'|E']; [done|].
      destruct (String.eqb_spec (row_tag r) other); [congruence|done].
    + rewrite IH. destruct (String.eqb_spec (row_tag r) other) as [E'|E'];
        [|done].
      destruct (String.eqb_spec other tag); [congruence|done].
Qed.

Lemma filter_out_length t tag :
  length (List.filter (fun r => negb (String.eqb (row_tag r) tag)) t)
  = length t <-> has_tag t tag = false.
Proof.
  unfold has_tag. induction t as [|r t IH]; cbn [List.filter existsb length].
  - done.
  - pose proof (List.filter_length_le
      (fun r => negb (String.eqb (row_tag r) tag)) t).
    destruct (String.eqb (row_tag r) tag); cbn [negb orb length].
    + split; [lia|done].
    + rewrite <- IH. lia.
Qed.

(** X13. [delete_tag] revokes a tag and nothing else: afterwards
    [tag_autorizada] finds nothing under the tag and answers as before for
    every other tag; the message says "removida" exactly when the tag was
    registered. *)
Theorem delete_tag_revokes t tag :
  tag_autorizada (tags_map (delete_tag t tag).1) tag = None /\
  (forall other, other <> tag ->
     tag_autorizada (tags_map (delete_tag t tag).1) other
     = tag_autorizada (tags_map t) other) /\
  (delete_tag t tag).2
  = [match tag_autorizada (tags_map t) tag with
     | Some _ => "[CRUD] Tag '" +:+ tag +:+ "' removida."
     | None => "[CRUD] Tag '" +:+ tag +:+ "' não encontrada."
     end].
Proof.
  unfold delete_tag, sql_delete. cbn [fst snd]. split; [|split].
  - by rewrite tag_autorizada_select, select_filter_out, String.eqb_refl.
  - intros other Hne. rewrite !tag_autorizada_select, select_filter_out.
    by destruct (String.eqb_spec other tag).
  - rewrite tag_autorizada_select. f_equal.
    pose proof (List.filter_length_le
      (fun r => negb (String.eqb (row_tag r) tag)) t) as Hle.
    pose proof (filter_out_length t tag) as Hlen.
    destruct (select_nome t tag) as [n|] eqn:E.
    + destruct (Nat.eqb_spec (length t - length (List.filter
        (fun r => negb (String.eqb (row_tag r) tag)) t)) 0) as [E0|]; [|done].
      assert (has_tag t tag = false) as Hf by (apply Hlen; lia).
      apply has_tag_false_select in Hf. congruence.
    + apply has_tag_false_select, Hlen in E. rewrite E, Nat.sub_diag. done.
Qed.

Lemma delete_tag_revokes_witness :
  tag_autorizada (tags_map (delete_tag sample_table "04A1B2").1) "04A1B2"
    = None /\
  tag_autorizada (tags_map (delete_tag sample_table "04A1B2").1) "FFEE01"
    = Some "Bob".
Proof.
  split.
  - apply delete_tag_revokes.
  - rewrite (proj1 (proj2 (delete_tag_revokes sample_table "04A1B2")));
      [vm_compute; reflexivity|discriminate].
Defined.

Lemma select_rename t new old other :
  new <> old -> select_nome t new = None ->
  select_nome ((fun r => if String.eqb (row_tag r) old
                         then {| row_nome := row_nome r; row_tag := new |}
                         else r) <$> t) other
  = if String.eqb other old then None
    else if String.eqb other new then select_nome t old
    else select_nome t other.
Proof.
  intros Hne. induction t as [|r t IH]; cbn [fmap list_fmap select_nome].
  - intros _. by repeat destruct (String.eqb _ _).
  - destruct (String.eqb_spec (row_tag r) new) as [|Hrn]; [done|].
    intros Hnone. specialize (IH Hnone). fold (@fmap list _ Row Row) in IH |- *.
    destruct (String.eqb_spec (row_tag r) old) as [Ero|Ero]; cbn [row_tag row_nome].
    + destruct (String.eqb_spec new other) as [<-|Hno].
      * destruct (String.eqb_spec new old); [done|]. by rewrite String.eqb_refl.
      * rewrite IH. destruct (String.eqb_spec other old); [done|].
        destruct (String.eqb_spec other new); [congruence|].
        rewrite Ero. destruct (String.eqb_spec old other); [congruence|done].
    + destruct (String.eqb_spec (row_tag r) other) as [<-|Hro].
      * destruct (String.eqb_spec (row_tag r) old); [done|].
        by destruct (String.eqb_spec (row_tag r) new).
      * rewrite IH. destruct (String.eqb_spec other old); [done|].
        destruct (String.eqb_spec other new); [done|done].
Qed.

Lemma select_update_nome t nm old other :
  select_nome (sql_update_nome t nm old) other
  = if String.eqb other old
    then match select_nome t old with Some _ => Some nm | None => None end
    else select_nome t other.
Proof.
  unfold sql_update_nome.
  induction t as [|r t IH]; cbn [fmap list_fmap select_nome].
  - by destruct (String.eqb other old).
  - fold (@fmap list _ Row Row) in IH |- *.
    destruct (String.eqb_spec (row_tag r) old) as [Ero|Ero]; cbn [row_tag row_nome].
    + rewrite Ero. destruct (String.eqb_spec old other) as [<-|Hno].
      * by rewrite String.eqb_refl.
      * rewrite IH. destruct (String.eqb_spec other old); [congruence|done].
    + destruct (String.eqb_spec (row_tag r) other) as [<-|Hro].
      * by destruct (String.eqb_spec (row_tag r) old).
      * by rewrite IH.
Qed.

Lemma rename_unknown t new old :
  has_tag t old = false ->
  (fun r => if String.eqb (row_tag r) old
            then {| row_nome := row_nome r; row_tag := new |}
            else r) <$> t = t.
Proof.
  unfold has_tag. induction t as [|r t IH]; [done|]. cbn [existsb fmap list_fmap].
  destruct (String.eqb (row_tag r) old); [done|]. cbn [orb]. intros H.
  f_equal. by apply IH.
Qed.

Lemma given_some s : s <> "" -> given (Some s) = Some s.
Proof. by destruct s. Qed.

(** X14. [update_tag] with a new tag moves the registration. For a
    registered tag and a different, non-empty new tag: if the new tag is
    free, the name is found under the new tag, nothing is found under the
    old one and the other tags are untouched; if the new tag is taken, the
    statement breaks the constraint and [update_tag] raises
    [IntegrityError]. *)
Theorem update_tag_renames t old new n :
  tag_autorizada (tags_map t) old = Some n ->
  new <> old -> new <> "" ->
  (tag_autorizada (tags_map t) new = None ->
   exists t' out,
     update_tag t old (Some new) None = Sql_ok (t', out) /\
     tag_autorizada (tags_map t') new = Some n /\
     tag_autorizada (tags_map t') old = None /\
     forall other, other <> old -> other <> new ->
       tag_autorizada (tags_map t') other = tag_autorizada (tags_map t) other) /\
  (is_Some (tag_autorizada (tags_map t) new) ->
   update_tag t old (Some new) None = IntegrityError).
Proof.
  rewrite !tag_autorizada_select. intros Hold Hne Hnew.
  assert (has_tag t old = true) as Ho by (apply has_tag_select; eauto).
  unfold update_tag, sql_update_tag. rewrite (given_some new Hnew), Ho.
  destruct (String.eqb_spec new old) as [|_]; [done|]. cbn [negb andb given].
  split.
  - intros Hnone. rewrite (proj2 (has_tag_false_select t new) Hnone).
    eexists _, _. split; [reflexivity|]. split; [|split].
    + rewrite tag_autorizada_select, select_rename by done.
      destruct (String.eqb_spec new old) as [|_]; [done|].
      by rewrite String.eqb_refl.
    + rewrite tag_autorizada_select, select_rename by done.
      by rewrite String.eqb_refl.
    + intros other H1 H2.
      rewrite !tag_autorizada_select, select_rename by done.
      destruct (String.eqb_spec other old); [done|].
      by destruct (String.eqb_spec other new).
  - intros Hsome. by rewrite (proj2 (has_tag_select t new) Hsome).
Qed.

Lemma update_tag_renames_witness :
  (exists t' out,
     update_tag sample_table "04A1B2" (Some "0A0B0C") None = Sql_ok (t', out) /\
     tag_autorizada (tags_map t') "0A0B0C" = Some "Ana" /\
     tag_autorizada (tags_map t') "04A1B2" = None) /\
  update_tag sample_table "04A1B2" (Some "FFEE01") None = IntegrityError.
Proof.
  split.
  - destruct (proj1 (update_tag_renames sample_table "04A1B2" "0A0B0C" "Ana"
                       ltac:(vm_compute; reflexivity) ltac:(discriminate)
                       ltac:(discriminate)))
      as (t' & out & E & H1 & H2 & _); [vm_compute; reflexivity|].
    by exists t', out.
  - apply (update_tag_renames sample_table "04A1B2" "FFEE01" "Ana");
      [vm_compute; reflexivity|discriminate..|].
    eexists. vm_compute; reflexivity.
Defined.

(** X15. Two things [update_tag] does not do. Called with a new tag and a
    new name at once, on a registered tag and a free new tag, it renames
    the tag but does not change the name: the second statement still
    selects the old tag; both messages are printed all the same. Called on
    a tag the table does not hold, it changes nothing and prints the
    message of a change. *)
Theorem update_tag_loses_name_and_reports_success t old new nm :
  new <> old -> new <> "" -> nm <> "" ->
  tag_autorizada (tags_map t) new = None ->
  (forall n, tag_autorizada (tags_map t) old = Some n ->
     exists t',
       update_tag t old (Some new) (Some nm)
       = Sql_ok (t', ["[CRUD] Tag '" +:+ old +:+ "' alterada para '"
                        +:+ new +:+ "'.";
                      "[CRUD] Nome da tag '" +:+ old
                        +:+ "' atualizado para '" +:+ nm +:+ "'."]) /\
       tag_autorizada (tags_map t') new = Some n) /\
  (tag_autorizada (tags_map t) old = None ->
   update_tag t old (Some new) None
   = Sql_ok (t, ["[CRUD] Tag '" +:+ old +:+ "' alterada para '"
                   +:+ new +:+ "'."])).
Proof.
  rewrite tag_autorizada_select. intros Hne Hnew Hnm Hnone.
  unfold update_tag, sql_update_tag.
  rewrite (given_some new Hnew), (given_some nm Hnm),
    (proj2 (has_tag_false_select t new) Hnone), andb_false_r.
  split.
  - intros n. rewrite tag_autorizada_select. intros Hold.
    eexists. split; [reflexivity|].
    rewrite tag_autorizada_select, select_update_nome.
    destruct (String.eqb_spec new old) as [|_]; [done|].
    rewrite select_rename by done.
    destruct (String.eqb_spec new old) as [|_]; [done|].
    by rewrite String.eqb_refl.
  - rewrite tag_autorizada_select. intros Hold. cbn [given].
    by rewrite (rename_unknown t new old (proj2 (has_tag_false_select t old) Hold)).
Qed.

Lemma update_tag_loses_name_and_reports_success_witness :
  (exists t',
     update_tag sample_table "04A1B2" (Some "0A0B0C") (Some "Bia")
     = Sql_ok (t', ["[CRUD] Tag '04A1B2' alterada para '0A0B0C'.";
                    "[CRUD] Nome da tag '04A1B2' atualizado para 'Bia'."]) /\
     tag_autorizada (tags_map t') "0A0B0C" = Some "Ana") /\
  update_tag sample_table "777777" (Some "0A0B0C") None
  = Sql_ok (sample_table, ["[CRUD] Tag '777777' alterada para '0A0B0C'."]).
Proof.
  split.
  - apply (proj1 (update_tag_loses_name_and_reports_success sample_table
                    "04A1B2" "0A0B0C" "Bia" ltac:(discriminate)
                    ltac:(discriminate) ltac:(discriminate)
                    ltac:(vm_compute; reflexivity)) "Ana").
    vm_compute; reflexivity.
  - apply (proj2 (update_tag_loses_name_and_reports_success sample_table
                    "777777" "0A0B0C" "x" ltac:(discriminate)
                    ltac:(discriminate) ltac:(discriminate)
                    ltac:(vm_compute; reflexivity))).
    vm_compute; reflexivity.
Defined.

Lemma has_tag_elem t tag : has_tag t tag = true <-> tag ∈ row_tag <$> t.
Proof.
  unfold has_tag. induction t as [|r t IH]; cbn [existsb fmap list_fmap].
  - split; [done|]. intros H. by apply elem_of_nil in H.
  - rewrite elem_of_cons, orb_true_iff, IH.
    destruct (String.eqb_spec (row_tag r) tag) as [E|E].
    + split; intros _; [by left; symmetry|by left].
    + split; (intros [H|H]; [done|by right]).
Qed.

Lemma create_tag_unique t nome tag :
  unique_tags t -> unique_tags (create_tag t nome tag).1.
Proof.
  unfold create_tag, sql_insert, unique_tags.
  destruct (has_tag t tag) eqn:E; [done|]. cbn [fst]. intros H.
  rewrite fmap_app. apply NoDup_app. split; [done|]. split.
  - intros x Hx Hx'. cbn in Hx'. apply list_elem_of_singleton in Hx' as ->.
    apply has_tag_elem in Hx. congruence.
  - apply NoDup_singleton.
Qed.

Lemma delete_tag_unique t tag :
  unique_tags t -> unique_tags (delete_tag t tag).1.
Proof.
  unfold delete_tag, sql_delete, unique_tags. cbn [fst].
  induction t as [|r t IH]; [done|]. cbn [List.filter fmap list_fmap].
  rewrite NoDup_cons. intros [Hr Ht].
  destruct (negb _); [|by apply IH]. cbn [fmap list_fmap].
  apply NoDup_cons. split; [|by apply IH].
  intros Hin. apply Hr. apply list_elem_of_fmap in Hin as (r' & -> & Hin).
  apply list_elem_of_fmap. exists r'. split; [done|].
  apply list_elem_of_In. apply list_elem_of_In, filter_In in Hin. tauto.
Qed.

Lemma NoDup_fmap_eq {A B} (f : A -> B) (l : list A) x y :
  NoDup (f <$> l) -> x ∈ l -> y ∈ l -> f x = f y -> x = y.
Proof.
  induction l as [|a l IH]; intros Hn Hx Hy E.
  - by apply elem_of_nil in Hx.
  - cbn [fmap list_fmap] in Hn. apply NoDup_cons in Hn as [Ha Hl].
    apply elem_of_cons in Hx as [->|Hx], Hy as [->|Hy]; [done| | |by apply IH].
    + destruct Ha. rewrite E. by apply list_elem_of_fmap_2.
    + destruct Ha. rewrite <- E. by apply list_elem_of_fmap_2.
Qed.

Lemma sql_update_tag_unique t new old t' :
  unique_tags t -> sql_update_tag t new old = Sql_ok t' -> unique_tags t'.
Proof.
  unfold sql_update_tag, unique_tags. intros Hu.
  destruct (has_tag t old) eqn:Eo; cbn [andb].
  2:{ intros [= <-]. by rewrite rename_unknown. }
  destruct (String.eqb_spec new old) as [->|Hne]; cbn [negb andb].
  { intros [= <-]. rewrite <- list_fmap_compose.
    erewrite list_fmap_ext; [exact Hu|]. intros i r _. simpl.
    by destruct (String.eqb_spec (row_tag r) old). }
  destruct (has_tag t new) eqn:En; [done|]. intros [= <-].
  rewrite <- list_fmap_compose.
  apply (NoDup_fmap_2_strong _ t).
  - intros r1 r2 H1 H2. simpl.
    assert (forall r, r ∈ t -> row_tag r <> new) as Hn.
    { intros r Hr E. apply not_true_iff_false in En. apply En, has_tag_elem.
      rewrite <- E. by apply list_elem_of_fmap_2. }
    destruct (String.eqb_spec (row_tag r1) old) as [E1|E1],
      (String.eqb_spec (row_tag r2) old) as [E2|E2]; simpl; intros E.
    + apply (NoDup_fmap_eq row_tag t); [done..|congruence].
    + by destruct (Hn r2 H2).
    + by destruct (Hn r1 H1).
    + by apply (NoDup_fmap_eq row_tag t).
  - by apply NoDup_fmap_1 in Hu.
Qed.

Lemma sql_update_nome_tags t nm old :
  row_tag <$> sql_update_nome t nm old = row_tag <$> t.
Proof.
  unfold sql_update_nome. rewrite <- list_fmap_compose.
  apply list_fmap_ext. intros i r _. simpl.
  by destruct (String.eqb (row_tag r) old).
Qed.

Lemma update_tag_unique t old new_tag new_nome t' out :
  unique_tags t ->
  update_tag t old new_tag new_nome = Sql_ok (t', out) ->
  unique_tags t'.
Proof.
  unfold update_tag. intros Hu.
  destruct (given new_tag) as [v|].
  - destruct (sql_update_tag t v old) as [t1|] eqn:E; [|done].
    pose proof (sql_update_tag_unique _ _ _ _ Hu E) as H1.
    destruct (given new_nome); intros [= <- _]; [|done].
    unfold unique_tags. by rewrite sql_update_nome_tags.
  - destruct (given new_nome); intros [= <- _]; [|done].
    unfold unique_tags. by rewrite sql_update_nome_tags.
Qed.

Lemma crud_menu_unique n : forall inputs t,
  (length inputs <= n)%nat -> unique_tags t ->
  unique_tags (crud_menu t inputs).1.1.
Proof.
  induction n as [|n IH]; intros inputs t Hlen Hu.
  - destruct inputs; [done|simpl in Hlen; lia].
  - destruct inputs as [|line rest]; [done|]. cbn [length] in Hlen.
    cbn [crud_menu].
    repeat match goal with
    | |- context [if ?b then _ else _] => destruct b
    end.
    + destruct rest as [|nome [|tag rest']]; [done..|]. cbn [length] in Hlen.
      pose proof (create_tag_unique t (strip nome) (upper (strip tag)) Hu) as H1.
      destruct (create_tag _ _ _) as [t1 out]. cbn [fst] in H1.
      specialize (IH rest' t1 ltac:(lia) H1).
      by destruct (crud_menu t1 rest') as [[t2 out'] e].
    + apply IH; [lia|done].
    + destruct rest as [|old [|choice rest']]; [done..|]. cbn [length] in Hlen.
      repeat match goal with
      | |- context [if ?b then _ else _] => destruct b
      end.
      * destruct rest' as [|novo rest'']; [done|]. cbn [length] in Hlen.
        destruct (update_tag _ _ _ _) as [[t1 out]|] eqn:E; [|done].
        pose proof (update_tag_unique _ _ _ _ _ _ Hu E) as H1.
        specialize (IH rest'' t1 ltac:(lia) H1).
        by destruct (crud_menu t1 rest'') as [[t2 out'] e].
      * destruct rest' as [|novo rest'']; [done|]. cbn [length] in Hlen.
        destruct (update_tag _ _ _ _) as [[t1 out]|] eqn:E; [|done].
        pose proof (update_tag_unique _ _ _ _ _ _ Hu E) as H1.
        specialize (IH rest'' t1 ltac:(lia) H1).
        by destruct (crud_menu t1 rest'') as [[t2 out'] e].
      * specialize (IH rest' t ltac:(lia) Hu).
        by destruct (crud_menu t rest') as [[t2 out'] e].
    + destruct rest as [|tag rest']; [done|]. cbn [length] in Hlen.
      pose proof (delete_tag_unique t (upper (strip tag)) Hu) as H1.
      destruct (delete_tag _ _) as [t1 out]. cbn [fst] in H1.
      specialize (IH rest' t1 ltac:(lia) H1).
      by destruct (crud_menu t1 rest') as [[t2 out'] e].
    + done.
    + specialize (IH rest t ltac:(lia) Hu).
      by destruct (crud_menu t rest) as [[t2 out'] e].
Qed.

(** X16. The menu keeps the tags unique. Whatever lines the operator
    types, and however the menu ends (left with [x], out of input, or
    stopped by the [IntegrityError] of an update), a table whose tags are
    pairwise distinct is left with pairwise distinct tags. *)
Theorem menu_keeps_tags_unique t inputs :
  unique_tags t -> unique_tags (crud_menu t inputs).1.1.
Proof. by apply (crud_menu_unique (length inputs)). Qed.

Lemma menu_keeps_tags_unique_witness :
  unique_tags
    (crud_menu sample_table
       ["c"; "Caio"; "04a1b2"; "u"; "ffee01"; "t"; "0a0b0c"; "d"; "04A1B2";
        "u"; "0A0B0C"; "t"; "0a0b0c "]).1.1.
Proof.
  apply menu_keeps_tags_unique. unfold unique_tags.
  repeat (apply NoDup_cons; split;
          [rewrite ?elem_of_cons, elem_of_nil; intros H;
           repeat destruct H as [H|H]; discriminate || done|]).
  apply NoDup_nil_2.
Defined.

Lemma create_tag_select t nome tag :
  select_nome t tag = None ->
  select_nome (create_tag t nome tag).1 tag = Some nome.
Proof.
  intros Hnone. unfold create_tag, sql_insert.
  rewrite (proj2 (has_tag_false_select t tag) Hnone). cbn [fst].
  rewrite select_app, Hnone. simpl. by rewrite String.eqb_refl.
Qed.

Lemma crud_menu_create t nome tag rest :
  crud_menu t ("c" :: nome :: tag :: rest)
  = let '(t1, out) := create_tag t (strip nome) (upper (strip tag)) in
    let '(t2, out', e) := crud_menu t1 rest in
    (t2, out ++ out', e).
Proof. reflexivity. Qed.

(** X17. A tag told to the menu is a tag the reader reads. On ASCII
    text: when the operator registers a name under a tag that, in normal
    form, is not empty and not yet in the table, and the reader later
    receives a line [TAG:] followed by any spelling with the same normal
    form (other case, other blanks, a line end), then [ler_tag] returns a
    tag that [tag_autorizada] finds, with the name stripped, and the
    iteration of [main] constructs the detector. *)
Theorem tag_told_to_the_menu_is_read_by_the_reader t nome told pad sent granted :
  ascii_text nome -> ascii_text told -> ascii_text pad -> ascii_text sent ->
  tag_autorizada (tags_map t) (normalise told) = None ->
  normalise told <> "" ->
  normalise sent = normalise told ->
  lstrip pad = "" ->
  exists tag,
    ler_tag (Some (pad +:+ "TAG:" +:+ sent)) = Some tag /\
    tag_autorizada (tags_map (crud_menu t ["c"; nome; told; "x"]).1.1) tag
    = Some (strip nome) /\
    NewDetector main_cfg
      ∈ main_iteration (tags_map (crud_menu t ["c"; nome; told; "x"]).1.1)
          (Some tag) granted.
Proof.
  intros _ _ _ _ Hfree Hne Hsame Hpad.
  exists (normalise told). rewrite (ler_tag_line pad sent Hpad), Hsame.
  split; [done|].
  assert (tag_autorizada
            (tags_map (crud_menu t ["c"; nome; told; "x"]).1.1)
            (normalise told) = Some (strip nome)) as Hreg.
  { rewrite crud_menu_create. fold (normalise told).
    rewrite tag_autorizada_select in Hfree |- *.
    pose proof (create_tag_select t (strip nome) (normalise told) Hfree) as H.
    destruct (create_tag t (strip nome) (normalise told)) as [t1 out].
    exact H. }
  split; [done|]. unfold main_iteration.
  destruct (normalise told) as [|a tag]; [done|]. rewrite Hreg.
  do 4 apply list_elem_of_further. apply list_elem_of_here.
Qed.

Lemma tag_told_to_the_menu_is_read_by_the_reader_witness :
  exists tag,
    ler_tag (Some ("" +:+ "TAG:" +:+ sample_line_tail)) = Some tag /\
    tag_autorizada
      (tags_map (crud_menu [] ["c"; " Ana "; "04A1b2  "; "x"]).1.1) tag
    = Some (strip " Ana ") /\
    NewDetector main_cfg
      ∈ main_iteration
          (tags_map (crud_menu [] ["c"; " Ana "; "04A1b2  "; "x"]).1.1)
          (Some tag) true.
Proof.
  apply (tag_told_to_the_menu_is_read_by_the_reader [] " Ana " "04A1b2  " ""
           sample_line_tail true);
    try (apply ascii_textb_sound; vm_compute; reflexivity);
    try (vm_compute; reflexivity).
  vm_compute. discriminate.
Defined.
